(** * LAMOST Spectrum Analyzer: a shallow embedding of the numerical core

    Sources embedded here:
    - [src/src/lamost_analyzer/core/fits_processor.py]: [valid_mask], [rebin_spectrum]
    - [src/src/lamost_analyzer/core/utils.py]: [try_savgol], [running_percentile],
      [enhance_line_detection]
    - [src/src/lamost_analyzer/core/spectral_analysis.py]: [calculate_snr],
      [measure_line_parameters], [calculate_redshift], [robust_redshift_calculation],
      the absorption-line loop and redshift block of [generate_spectral_report]
    - [src/main.py]: the control flow of [main] around the empty-rebin check.

    Numbers.  Finite floating-point values are modelled as exact rationals [Q]
    (rounding is not modelled).  Where NaN or infinities matter, the type [fl]
    below adds them with IEEE-754 propagation rules.  Library primitives that
    are not rational functions ([np.sqrt], [np.power] with a real exponent,
    [scipy.integrate.simpson], [scipy.signal.savgol_filter]) are parameters of
    the Sections that use them. *)

From Stdlib Require Import ZArith QArith Qround Qabs Lia Lqa Permutation Sorted.
From stdpp Require Import base list gmap strings.

(* ------------------------------------------------------------------ *)
(** ** Rebinning: [rebin_spectrum] (fits_processor.py, lines 74-84)     *)
(* ------------------------------------------------------------------ *)

(** The rebinner is written once over the element type, so that it can be
    used on exact rationals and on the NaN-aware float model of [main]. *)
Section Rebin.
Context {A : Type} (zero one : A) (add div : A -> A -> A) (of_nat : nat -> A).

(** [row.mean()]: the sum of the row divided by its length. *)
Definition sum_row (r : list A) : A := fold_left add r zero.
Definition mean_row (r : list A) : A := div (sum_row r) (of_nat (length r)).

(** The rows of a C-order [reshape(n, f)]. *)
Fixpoint chunks (n f : nat) (xs : list A) : list (list A) :=
  match n with
  | O => []
  | S n' => firstn f xs :: chunks n' f (skipn f xs)
  end.

(** [xs.reshape(n, f)]: numpy raises [ValueError] unless the array has
    exactly [n * f] elements. *)
Definition reshape (n f : nat) (xs : list A) : option (list (list A)) :=
  if Nat.eqb (length xs) (n * f) then Some (chunks n f xs) else None.

(** [x[:n*factor].reshape(n, factor).mean(axis=1)] *)
Definition block_means (n f : nat) (xs : list A) : option (list A) :=
  match reshape n f (firstn (n * f) xs) with
  | Some rows => Some (map mean_row rows)
  | None => None
  end.

Definition rebin_spectrum (wl flux ivar : list A) (factor : Z)
    : option (list A * list A * list A) :=
  if (factor <=? 1)%Z then Some (wl, flux, ivar) else
  let f := Z.to_nat factor in
  let n := length wl / f in
  match block_means n f wl with
  | None => None
  | Some wl_r =>
    let var := map (div one) ivar in
    match block_means n f var with
    | None => None
    | Some var_r =>
      match block_means n f flux with
      | None => None
      | Some flux_r =>
        let ivar_r := map (div one) var_r in
        Some (wl_r, flux_r, ivar_r)
      end
    end
  end.
End Rebin.

Definition Q_of_nat (n : nat) : Q := inject_Z (Z.of_nat n).

(** The rebinner on finite values ([Qdiv] by zero gives 0 where IEEE gives
    [inf]; after [valid_mask] every [ivar] is positive). *)
Definition rebin_spectrum_Q := rebin_spectrum 0%Q 1%Q Qplus Qdiv Q_of_nat.

(** Spec side of the rebinning claim: block [i] of width [f], and its mean
    written as a right fold. *)
Definition block (f i : nat) (xs : list Q) : list Q := firstn f (skipn (i * f) xs).

Fixpoint qsum (xs : list Q) : Q :=
  match xs with [] => 0%Q | x :: xs' => (x + qsum xs')%Q end.

Definition block_avg (f : nat) (xs : list Q) (i : nat) : Q :=
  (qsum (block f i xs) / Q_of_nat f)%Q.

(* ------------------------------------------------------------------ *)
(** ** Floating-point values with NaN and infinities                   *)
(* ------------------------------------------------------------------ *)

(** A float is finite (a rational), NaN, or an infinity ([neg] gives the
    sign).  Signed zeros are not distinguished. *)
Inductive fl : Type :=
| Fin (q : Q)
| NaN
| Inf (neg : bool).

Definition qltb (x y : Q) : bool := negb (Qle_bool y x).

Definition fisfinite (x : fl) : bool :=
  match x with Fin _ => true | _ => false end.

Definition fneg (x : fl) : fl :=
  match x with Fin q => Fin (- q) | NaN => NaN | Inf b => Inf (negb b) end.

Definition fadd (x y : fl) : fl :=
  match x, y with
  | NaN, _ | _, NaN => NaN
  | Inf a, Inf b => if Bool.eqb a b then Inf a else NaN
  | Inf a, Fin _ | Fin _, Inf a => Inf a
  | Fin p, Fin q => Fin (p + q)
  end.

Definition fsub (x y : fl) : fl := fadd x (fneg y).

Definition fmul (x y : fl) : fl :=
  match x, y with
  | NaN, _ | _, NaN => NaN
  | Inf a, Inf b => Inf (xorb a b)
  | Inf a, Fin q | Fin q, Inf a =>
      if Qeq_bool q 0 then NaN else Inf (xorb a (qltb q 0))
  | Fin p, Fin q => Fin (p * q)
  end.

Definition fdiv (x y : fl) : fl :=
  match x, y with
  | NaN, _ | _, NaN => NaN
  | Inf _, Inf _ => NaN
  | Fin _, Inf _ => Fin 0
  | Inf a, Fin q => Inf (xorb a (qltb q 0))
  | Fin p, Fin q =>
      if Qeq_bool q 0 then (if Qeq_bool p 0 then NaN else Inf (qltb p 0))
      else Fin (p / q)
  end.

(** [x < y]; every comparison with NaN is false. *)
Definition flt (x y : fl) : bool :=
  match x, y with
  | NaN, _ | _, NaN => false
  | Fin p, Fin q => qltb p q
  | Inf true, Inf true => false
  | Inf true, _ => true
  | Inf false, _ => false
  | Fin _, Inf neg => negb neg
  end.

(** [np.minimum] / [np.maximum]: NaN propagates. *)
Definition fmin2 (x y : fl) : fl :=
  match x, y with NaN, _ | _, NaN => NaN | _, _ => if flt y x then y else x end.
Definition fmax2 (x y : fl) : fl :=
  match x, y with NaN, _ | _, NaN => NaN | _, _ => if flt x y then y else x end.

(** [np.min] / [np.max]: [ValueError] on an empty array. *)
Definition np_min (xs : list fl) : option fl :=
  match xs with [] => None | x :: xs' => Some (fold_left fmin2 xs' x) end.
Definition np_max (xs : list fl) : option fl :=
  match xs with [] => None | x :: xs' => Some (fold_left fmax2 xs' x) end.

Definition fl_of_nat (n : nat) : fl := Fin (Q_of_nat n).

(* ------------------------------------------------------------------ *)
(** ** [enhance_line_detection] (utils.py, lines 58-67)                 *)
(* ------------------------------------------------------------------ *)

Section Enhance.
(** [np.power] at a finite base and a finite exponent. *)
Variable pow_fin : Q -> Q -> fl.

Definition is_odd_integer (e : Q) : bool :=
  Z.eqb (Zpos (Qden (Qred e))) 1 && Z.odd (Qnum (Qred e)).

(** [np.power(x, e)] for a float exponent [e]; IEEE [pow] at NaN and at
    the infinities. *)
Definition fpow (x : fl) (e : Q) : fl :=
  if Qeq_bool e 0 then Fin 1 else
  match x with
  | Fin q => pow_fin q e
  | NaN => NaN
  | Inf false => if qltb 0 e then Inf false else Fin 0
  | Inf true =>
      if qltb 0 e then Inf (is_odd_integer e) else Fin 0
  end.

Definition enhance_line_detection (flux : list fl) (enhancement_factor : Q)
    : option (list fl) :=
  match np_min flux, np_max flux with
  | Some mn, Some mx =>
    let norm_flux := map (fun x => fdiv (fsub x mn) (fsub mx mn)) flux in
    let enhanced_flux := map (fun x => fpow x enhancement_factor) norm_flux in
    Some (map (fun x => fadd (fmul x (fsub mx mn)) mn) enhanced_flux)
  | _, _ => None
  end.
End Enhance.

(* ------------------------------------------------------------------ *)
(** ** [valid_mask] and the start of [main] (src/main.py, lines 97-117) *)
(* ------------------------------------------------------------------ *)

(** Element-wise binary operation with numpy broadcasting on 1-d arrays:
    equal lengths, or one operand of length 1; otherwise [ValueError]. *)
Definition broadcast2 {X Y R : Type} (g : X -> Y -> R) (a : list X) (b : list Y)
    : option (list R) :=
  if Nat.eqb (length a) (length b) then Some (zip_with g a b) else
  match a, b with
  | [x], _ => Some (map (g x) b)
  | _, [y] => Some (map (fun x => g x y) a)
  | _, _ => None
  end.

(** [np.isfinite(flux) & np.isfinite(ivar) & (ivar > 0)] *)
Definition valid_mask (flux ivar : list fl) : option (list bool) :=
  broadcast2 (fun f i => fisfinite f && fisfinite i && flt (Fin 0) i) flux ivar.

(** [xs[m]] for a boolean mask: [IndexError] unless the lengths agree. *)
Definition apply_mask {X : Type} (m : list bool) (xs : list X) : option (list X) :=
  if Nat.eqb (length m) (length xs)
  then Some (map snd (filter (fun p => fst p = true) (zip m xs)))
  else None.

Definition rebin_spectrum_fl := rebin_spectrum (Fin 0) (Fin 1) fadd fdiv fl_of_nat.

(** How the body of [main]'s [try] block ends. *)
Inductive main_outcome : Type :=
| Returned_early (msg : string)   (** [print(msg); return] *)
| Exception_caught                (** an exception reached [except Exception] *)
| Finished.                       (** the end of the [try] block was reached *)

Definition empty_rebin_msg : string :=
  "Error: El array está vacío después del rebinado.".

Section Main.
(** Stages 4-9 of [main] (smoothing, enhancement, continuum, report,
    output), run on the rebinned arrays. *)
Variable rest_of_main : list fl -> list fl -> list fl -> main_outcome.

(** [main] from the arrays returned by [read_fits_file]: masking,
    rebinning by [REBIN_FACTOR], and the emptiness check. *)
Definition main_core (rebin_factor : Z) (wl flux ivar : list fl) : main_outcome :=
  match valid_mask flux ivar with
  | None => Exception_caught
  | Some m =>
    match apply_mask m wl, apply_mask m flux, apply_mask m ivar with
    | Some wl, Some flux, Some ivar =>
      match rebin_spectrum_fl wl flux ivar rebin_factor with
      | None => Exception_caught
      | Some (wl_r, flux_r, ivar_r) =>
        if Nat.eqb (length flux_r) 0 then Returned_early empty_rebin_msg
        else rest_of_main wl_r flux_r ivar_r
      end
    | _, _, _ => Exception_caught
    end
  end.
End Main.

(* ------------------------------------------------------------------ *)
(** ** Order statistics on finite values: [np.sort], [np.median]       *)
(* ------------------------------------------------------------------ *)

Fixpoint insert_Q (x : Q) (l : list Q) : list Q :=
  match l with
  | [] => [x]
  | y :: l' => if Qle_bool x y then x :: l else y :: insert_Q x l'
  end.

Fixpoint sort_Q (l : list Q) : list Q :=
  match l with [] => [] | x :: l' => insert_Q x (sort_Q l') end.

(** [np.median]: the middle element of the sorted array, or the mean of
    the two middle elements.  (numpy gives NaN on an empty array; every
    call site embedded here passes a non-empty one.) *)
Definition median (xs : list Q) : Q :=
  let s := sort_Q xs in
  let n := length s in
  if Nat.even n then ((nth (n / 2 - 1) s 0 + nth (n / 2) s 0) / 2)%Q
  else nth (n / 2) s 0%Q.

(** [np.mean] *)
Definition mean (xs : list Q) : Q := (fold_left Qplus xs 0 / Q_of_nat (length xs))%Q.

(* ------------------------------------------------------------------ *)
(** ** [try_savgol] (utils.py, lines 7-43)                              *)
(* ------------------------------------------------------------------ *)

(** [w = len(y) - 1 if len(y) % 2 == 0 else len(y); w = max(3, w)] *)
Definition shrink_window (len : nat) : Z :=
  Z.max 3 (if Nat.even len then Z.of_nat len - 1 else Z.of_nat len).

(** The window of the moving-average branch (lines 26-33). *)
Definition fallback_window (moving_avg_window : Z) (len : nat) : Z :=
  let w := Z.max 3 moving_avg_window in
  let w := if Z.even w then (w + 1)%Z else w in
  if (Z.of_nat len <? w)%Z then shrink_window len else w.

(** The window handed to [savgol_filter] (lines 11-19). *)
Definition savgol_window (window poly : Z) (len : nat) : Z :=
  let w := Z.max 3 (Z.lor window 1) in
  let w := if (Z.of_nat len <? w)%Z then shrink_window len else w in
  if (w <? poly + 2)%Z then (poly + 3)%Z else w.

(** [np.pad(y, (p, p), mode='constant', constant_values=c)] *)
Definition pad_constant (p : nat) (c : Q) (y : list Q) : list Q :=
  repeat c p ++ y ++ repeat c p.

(** [np.pad(y, (p, p), mode='edge')]: [ValueError] when an empty array
    has to be extended. *)
Definition pad_edge (p : nat) (y : list Q) : option (list Q) :=
  match p, y with
  | O, _ => Some y
  | _, [] => None
  | _, x :: _ => Some (repeat x p ++ y ++ repeat (List.last y x) p)
  end.

(** [np.convolve(a, v, mode='valid')]: [ValueError] on an empty operand;
    the operands are swapped when [v] is the longer one. *)
Definition conv_valid (a v : list Q) : option (list Q) :=
  match a, v with
  | [], _ | _, [] => None
  | _, _ =>
    let '(a, v) := if Nat.ltb (length a) (length v) then (v, a) else (a, v) in
    let m := length v in
    Some (map (fun k => fold_left Qplus (zip_with Qmult (firstn m (skipn k a)) (rev v)) 0%Q)
              (seq 0 (length a - m + 1)))
  end.

(** The [except] branch of [try_savgol]: a padded moving average. *)
Definition try_savgol_fallback (y : list Q) (moving_avg_window : Z) : option (list Q) :=
  let w := fallback_window moving_avg_window (length y) in
  let k := repeat (1 / inject_Z w)%Q (Z.to_nat w) in
  let p := Z.to_nat (w / 2)%Z in
  let y_pad :=
    if (Z.of_nat (length y) <? w)%Z then Some (pad_constant p (median y) y)
    else pad_edge p y in
  match y_pad with
  | Some y_pad => conv_valid y_pad k
  | None => None
  end.

Section TrySavgol.
(** [scipy.signal.savgol_filter(y, window_length, polyorder, mode="interp")];
    [None] when it raises. *)
Variable savgol_filter : list Q -> Z -> Z -> option (list Q).

Definition try_savgol (y : list Q) (window poly moving_avg_window : Z) : option (list Q) :=
  match savgol_filter y (savgol_window window poly (length y)) poly with
  | Some r => Some r
  | None => try_savgol_fallback y moving_avg_window
  end.
End TrySavgol.

(* ------------------------------------------------------------------ *)
(** ** [running_percentile] (utils.py, lines 45-56)                     *)
(* ------------------------------------------------------------------ *)

(** Flux values here are finite or NaN ([None]), as in the data model. *)
Fixpoint drop_nan (ys : list (option Q)) : list Q :=
  match ys with
  | [] => []
  | Some y :: ys' => y :: drop_nan ys'
  | None :: ys' => drop_nan ys'
  end.

(** [np.nanmedian]: NaN when no finite value is left. *)
Definition nanmedian (ys : list (option Q)) : option Q :=
  match drop_nan ys with [] => None | v => Some (median v) end.

(** [np.nanpercentile(ys, q)] with the default linear method, for
    [0 <= q <= 100]: the sorted finite values [v] are interpolated at the
    virtual index [(len v - 1) * q / 100]. *)
Definition nanpercentile (ys : list (option Q)) (q : Q) : option Q :=
  match sort_Q (drop_nan ys) with
  | [] => None
  | v =>
    let n := length v in
    let pos := (q / 100 * Q_of_nat (n - 1))%Q in
    let lo := Z.to_nat (Qfloor pos) in
    let hi := Nat.min (lo + 1) (n - 1) in
    let g := (pos - inject_Z (Qfloor pos))%Q in
    Some (nth lo v 0 + g * (nth hi v 0 - nth lo v 0))%Q
  end.

(** [y[a:b]] *)
Definition slice {X : Type} (a b : nat) (xs : list X) : list X := firstn (b - a) (skipn a xs).

(** [None] is the [ValueError] of [np.nanpercentile] for [q] outside
    [0, 100]; [np.empty_like] is modelled as an array of NaN, every entry
    of which the loop overwrites. *)
Definition running_percentile (y : list (option Q)) (win : Z) (q : Q)
    : option (list (option Q)) :=
  let win := Z.max 51 (Z.lor win 1) in
  if (win >=? Z.of_nat (length y))%Z then Some (repeat (nanmedian y) (length y)) else
  if negb (Qle_bool 0 q && Qle_bool q 100) then None else
  let half := Z.to_nat (win / 2) in
  let cont := repeat None (length y) in
  Some (fold_left
          (fun cont i =>
             let a := i - half in
             let b := Nat.min (length y) (i + half + 1) in
             <[i := nanpercentile (slice a b y) q]> cont)
          (seq 0 (length y)) cont).

(* ------------------------------------------------------------------ *)
(** ** [calculate_snr] (spectral_analysis.py, lines 10-22)             *)
(* ------------------------------------------------------------------ *)

Section Sqrt.
(** [np.sqrt] on a non-negative rational. *)
Variable sqrt : Q -> Q.

(** [np.std] (population standard deviation, [ddof = 0]). *)
Definition np_std (xs : list Q) : Q :=
  let m := mean xs in sqrt (mean (map (fun x => (x - m) * (x - m))%Q xs)).

(** [None] is the [ZeroDivisionError] of [len(flux) // 0]. *)
Definition calculate_snr (flux : list Q) (window : Z) : option Q :=
  if (window =? 0)%Z then None else
  let w := Z.to_nat window in
  let n_segments := Z.to_nat (Z.of_nat (length flux) / window) in
  let snr_values :=
    fold_left
      (fun snr_values i =>
         let segment := slice (i * w) ((i + 1) * w) flux in
         let signal := median segment in
         let noise := np_std segment in
         if qltb 0 noise then snr_values ++ [(signal / noise)%Q] else snr_values)
      (seq 0 n_segments) [] in
  Some (match snr_values with [] => 0%Q | _ => median snr_values end).

(** Spec side: the partition of [flux] into consecutive non-overlapping
    segments of [w] samples (a short tail is not a segment), and the SNR
    as the median of [median / std] over the segments with [std > 0]. *)
Fixpoint segments_fuel (fuel w : nat) (xs : list Q) : list (list Q) :=
  match fuel with
  | O => []
  | S fuel' => if Nat.ltb (length xs) w then [] else firstn w xs :: segments_fuel fuel' w (skipn w xs)
  end.

Definition segments (w : nat) (xs : list Q) : list (list Q) := segments_fuel (length xs) w xs.

Definition snr_of_segments (w : nat) (flux : list Q) : Q :=
  let ratios :=
    flat_map (fun seg => if qltb 0 (np_std seg) then [(median seg / np_std seg)%Q] else [])
             (segments w flux) in
  match ratios with [] => 0%Q | _ => median ratios end.
End Sqrt.

(* ------------------------------------------------------------------ *)
(** ** [calculate_redshift], [robust_redshift_calculation]
       (spectral_analysis.py, lines 69-93)                              *)
(* ------------------------------------------------------------------ *)

Definition calculate_redshift (observed_wavelength rest_wavelength : Q) : Q :=
  ((observed_wavelength - rest_wavelength) / rest_wavelength)%Q.

(** [scipy.stats.median_abs_deviation] with its defaults ([scale=1.0],
    centre [np.median]). *)
Definition median_abs_deviation (xs : list Q) : Q :=
  let m := median xs in median (map (fun x => Qabs (x - m)) xs).

(** The list comprehension of line 83. *)
Definition sigma_clip_filter (redshifts : list Q) (median_z mad_z sigma_clip : Q) : list Q :=
  List.filter (fun z => qltb (Qabs (z - median_z)) (sigma_clip * mad_z)) redshifts.

(** Returns [(value, error, n_lines_used)]; [None] is Python's [None]. *)
Definition robust_redshift_calculation (sqrt : Q -> Q) (redshifts : list Q) (sigma_clip : Q)
    : option Q * option Q * nat :=
  match redshifts with
  | [] => (None, None, 0)
  | _ =>
    let median_z := median redshifts in
    let mad_z := median_abs_deviation redshifts in
    let filtered_redshifts := sigma_clip_filter redshifts median_z mad_z sigma_clip in
    match filtered_redshifts with
    | [] => (Some median_z, Some mad_z, length redshifts)
    | _ => (Some (mean filtered_redshifts), Some (np_std sqrt filtered_redshifts),
            length filtered_redshifts)
    end
  end.

(* ------------------------------------------------------------------ *)
(** ** [measure_line_parameters] (spectral_analysis.py, lines 24-67)    *)
(* ------------------------------------------------------------------ *)

(** The dict returned for a line.  [fwhm = None] is [np.nan]; the
    [redshift] key is absent ([None]) until [generate_spectral_report]
    adds it. *)
Record line_measurement : Type := {
  observed_center : Q;
  equivalent_width : Q;
  fwhm : option Q;
  depth : Q;
  continuum_level : Q;
  redshift : option Q
}.

Definition set_redshift (d : line_measurement) (z : Q) : line_measurement := {|
  observed_center := observed_center d;
  equivalent_width := equivalent_width d;
  fwhm := fwhm d;
  depth := depth d;
  continuum_level := continuum_level d;
  redshift := Some z
|}.

(** [np.argmin]: the first index of the minimum. *)
Fixpoint argmin_aux (xs : list Q) (i best : nat) (best_v : Q) : nat :=
  match xs with
  | [] => best
  | x :: xs' => if qltb x best_v then argmin_aux xs' (S i) i x else argmin_aux xs' (S i) best best_v
  end.

Definition argmin (xs : list Q) : nat :=
  match xs with [] => 0 | x :: xs' => argmin_aux xs' 1 0 x end.

(** [np.where(xs <= h)[0]] *)
Fixpoint where_le_from (i : nat) (xs : list Q) (h : Q) : list nat :=
  match xs with
  | [] => []
  | x :: xs' => if Qle_bool x h then i :: where_le_from (S i) xs' h else where_le_from (S i) xs' h
  end.

Definition where_le (xs : list Q) (h : Q) : list nat := where_le_from 0 xs h.

(** [xs[-5:]] *)
Definition last5 (xs : list Q) : list Q := skipn (length xs - 5) xs.

Section Measure.
(** [scipy.integrate.simpson(y, x)]. *)
Variable simpson : list Q -> list Q -> Q.

(** The outer [None] is the [IndexError] of [flux[mask]] on arrays of
    different lengths; [Some None] is the [return None] of an empty
    window.  Division by a zero continuum gives 0 here (IEEE: inf or
    NaN); it only affects [equivalent_width] and [depth]. *)
Definition measure_line_parameters (wavelengths flux : list Q) (line_center window : Q)
    : option (option line_measurement) :=
  let mask := map (fun w => Qle_bool (line_center - window) w && Qle_bool w (line_center + window))
                  wavelengths in
  match apply_mask mask wavelengths, apply_mask mask flux with
  | Some wl_window, Some flux_window =>
    if Nat.eqb (length flux_window) 0 then Some None else
    let min_flux_idx := argmin flux_window in
    let observed_center := nth min_flux_idx wl_window 0%Q in
    let min_flux := nth min_flux_idx flux_window 0%Q in
    let continuum_left := median (firstn 5 flux_window) in
    let continuum_right := median (last5 flux_window) in
    let continuum := ((continuum_left + continuum_right) / 2)%Q in
    let equivalent_width := simpson (map (fun f => 1 - f / continuum)%Q flux_window) wl_window in
    let half_max := ((continuum + min_flux) / 2)%Q in
    let left_idx := where_le (firstn min_flux_idx flux_window) half_max in
    let right_idx := where_le (skipn min_flux_idx flux_window) half_max in
    let fwhm :=
      match List.rev left_idx, right_idx with
      | l :: _, r :: _ =>
        let left_wl := nth l wl_window 0%Q in
        let right_wl := nth (min_flux_idx + r) wl_window 0%Q in
        Some (right_wl - left_wl)%Q
      | _, _ => None
      end in
    let depth := (1 - min_flux / continuum)%Q in
    Some (Some {| observed_center := observed_center;
                  equivalent_width := equivalent_width;
                  fwhm := fwhm;
                  depth := depth;
                  continuum_level := continuum;
                  redshift := None |})
  | _, _ => None
  end.

(* ---------------------------------------------------------------- *)
(** ** The absorption-line loop of [generate_spectral_report]
       (spectral_analysis.py, lines 156-168)                         *)
(* ---------------------------------------------------------------- *)

(** Python dicts are shared objects: [report['absorption_lines'][name]]
    and the local [measurement] name the same dict, which is mutated
    after it has been stored.  The dicts live in a heap of locations. *)
Record report_state : Type := {
  heap : gmap positive line_measurement;
  next_loc : positive;
  absorption_lines : gmap string positive;
  redshifts : list Q
}.

Definition initial_report_state : report_state :=
  {| heap := ∅; next_loc := 1%positive; absorption_lines := ∅; redshifts := [] |}.

Definition absorption_line_step (wavelengths flux : list Q) (st : report_state)
    (line : string * Q) : option report_state :=
  let '(name, rest_wl) := line in
  match measure_line_parameters wavelengths flux rest_wl 10 with
  | None => None
  | Some None => Some st
  | Some (Some m) =>
    (* measurement = measure_line_parameters(...): a fresh dict *)
    let l := next_loc st in
    let h := <[l := m]> (heap st) in
    (* report['absorption_lines'][name] = measurement *)
    let abs := <[name := l]> (absorption_lines st) in
    match h !! l with
    | None => None
    | Some d =>
      (* z = calculate_redshift(measurement['observed_center'], rest_wl) *)
      let z := calculate_redshift (observed_center d) rest_wl in
      (* measurement['redshift'] = z; redshifts.append(z) *)
      Some {| heap := <[l := set_redshift d z]> h;
              next_loc := Pos.succ l;
              absorption_lines := abs;
              redshifts := redshifts st ++ [z] |}
    end
  end.

Definition absorption_line_loop (wavelengths flux : list Q) (lines_dict : list (string * Q))
    : option report_state :=
  fold_left (fun st line => match st with
                            | Some st => absorption_line_step wavelengths flux st line
                            | None => None
                            end)
            lines_dict (Some initial_report_state).

(** [report['absorption_lines']] as the caller reads it after the run:
    each name maps to the current contents of its dict. *)
Definition absorption_lines_view (st : report_state) : gmap string line_measurement :=
  omap (fun l => heap st !! l) (absorption_lines st).
End Measure.

(** Spec side of the FWHM claim: the nearest sample strictly left and the
    nearest sample strictly right of the minimum at or below [half_max]. *)
Definition fwhm_strict_sides (wl_window flux_window : list Q) (min_idx : nat) (half_max : Q)
    : option Q :=
  match List.rev (where_le (firstn min_idx flux_window) half_max),
        where_le (skipn (S min_idx) flux_window) half_max with
  | l :: _, r :: _ => Some (nth (S min_idx + r) wl_window 0 - nth l wl_window 0)%Q
  | _, _ => None
  end.

Definition dip_wl : list Q := [0; 1; 2; 3; 4; 5; 6; 7; 8; 9; 10]%Q.
Definition dip_flux : list Q := [1; 1; 1; 1; 2 # 5; 0; 2 # 5; 1; 1; 1; 1]%Q.

(* ------------------------------------------------------------------ *)
(** ** The rest of [generate_spectral_report] (spectral_analysis.py)   *)
(* ------------------------------------------------------------------ *)

(** [report['wavelength_range']] (lines 147-151): [np.min] and [np.max]
    raise [ValueError] on an empty array. *)
Definition wavelength_range (wavelengths : list fl) : option (fl * fl * fl) :=
  match np_min wavelengths, np_max wavelengths with
  | Some mn, Some mx => Some (mn, mx, fsub mx mn)
  | _, _ => None
  end.

(** The redshift block of the report (lines 171-185).  [Some None]: the
    key is absent ([redshifts] is empty); the outer [None] is the
    [TypeError] of [float(None)]. *)
Record redshift_info : Type := {
  z_value : Q;
  z_error : Q;
  n_lines_used : nat;
  n_lines_total : nat;
  rv_value : Q;
  rv_error : Q
}.

(** [299792.458] km/s *)
Definition speed_of_light_kms : Q := 299792458 # 1000.

Definition report_redshift (sqrt : Q -> Q) (redshifts : list Q) (redshift_sigma_clip : Q)
    : option (option redshift_info) :=
  match redshifts with
  | [] => Some None
  | _ =>
    match robust_redshift_calculation sqrt redshifts redshift_sigma_clip with
    | (Some mean_z, Some std_z, n_lines) =>
      Some (Some {| z_value := mean_z;
                    z_error := std_z;
                    n_lines_used := n_lines;
                    n_lines_total := length redshifts;
                    rv_value := (mean_z * speed_of_light_kms)%Q;
                    rv_error := (std_z * speed_of_light_kms)%Q |})
    | _ => None
    end
  end.

(** [(wavelengths >= c - window) & (wavelengths <= c + window)] *)
Definition window_mask (wavelengths : list Q) (c window : Q) : list bool :=
  map (fun w => Qle_bool (c - window) w && Qle_bool w (c + window)) wavelengths.

(** [np.mean]: the sum divided by the length; [0/0 = NaN] on an empty
    array. *)
Definition fmean (xs : list fl) : fl := fdiv (fold_left fadd xs (Fin 0)) (fl_of_nat (length xs)).

(** [calculate_mg_fe_index] (lines 95-103); [None] is the [IndexError] of
    a mask whose length differs from [flux]. *)
Definition calculate_mg_fe_index (wavelengths : list Q) (flux : list fl)
    (mg_line fe_line window : Q) : option fl :=
  let mg_mask := window_mask wavelengths mg_line window in
  let fe_mask := window_mask wavelengths fe_line window in
  match apply_mask mg_mask flux, apply_mask fe_mask flux with
  | Some mg, Some fe => Some (fdiv (fmean mg) (fmean fe))
  | _, _ => None
  end.

(** [report['metallicity_estimate']] from [report['mg_fe_ratio']]
    (lines 194-199). *)
Definition metallicity_estimate (mg_fe_ratio : fl) : string :=
  if flt mg_fe_ratio (Fin (9 # 10)) then "Baja metalicidad"
  else if flt mg_fe_ratio (Fin (11 # 10)) then "Metalicidad solar"
  else "Alta metalicidad".

(** [calculate_mg_fe_index] with its defaults, then the classification,
    as lines 191-199 run them. *)
Definition report_metallicity (wavelengths : list Q) (flux : list fl) : option (fl * string) :=
  match calculate_mg_fe_index wavelengths flux 5175 5270 20 with
  | Some r => Some (r, metallicity_estimate r)
  | None => None
  end.

(** [estimate_temperature] (lines 105-114). *)
Definition estimate_temperature (hbeta_ew : fl) : string * Z :=
  if flt hbeta_ew (Fin 2) then ("Muy caliente (>10000 K)", 11000%Z)
  else if flt hbeta_ew (Fin 4) then ("Caliente (8000-10000 K)", 9000%Z)
  else if flt hbeta_ew (Fin 6) then ("Intermedia (6000-8000 K)", 7000%Z)
  else ("Fría (<6000 K)", 5500%Z).

(** [temperature_estimate] and [temperature_value] (lines 202-206): set
    only when the report has an [Hβ] entry. *)
Definition report_temperature (absorption_lines : gmap string line_measurement)
    : option (string * Z) :=
  match absorption_lines !! "Hβ" with
  | Some m => Some (estimate_temperature (Fin (equivalent_width m)))
  | None => None
  end.

(** [SPECTRAL_LINES] (config.py, lines 19-23), in dict order. *)
Definition SPECTRAL_LINES : list (string * Q) :=
  [("Hβ", 48613 # 10); ("Mg I 5172", 51727 # 10); ("Fe I 5328", 5328)]%Q.

(* ------------------------------------------------------------------ *)
(** ** [main]'s Savitzky-Golay window (src/main.py, lines 110-113)     *)
(* ------------------------------------------------------------------ *)

(** [current_sg_window]: [SG_WINDOW], shrunk to the data when larger. *)
Definition main_sg_window (sg_window : Z) (len : nat) : Z :=
  if (Z.of_nat len <? sg_window)%Z then shrink_window len else sg_window.

(* ------------------------------------------------------------------ *)
(** ** [validate_and_load_fits] (core/data_loader.py, lines 18-31)     *)
(* ------------------------------------------------------------------ *)

(** Header cards as the loader writes them. *)
Inductive hval : Type :=
| HBool (b : bool)
| HInt (z : Z)
| HStr (s : string)
| HReal (q : Q).

Definition REQUIRED_KEYS : list string := ["SIMPLE"; "BITPIX"; "NAXIS"; "EXTEND"].

(** The value the [if/elif] chain assigns to a missing key ([None]: no
    branch matches and nothing is assigned). *)
Definition default_card (key : string) : option hval :=
  if String.eqb key "SIMPLE" then Some (HBool true)
  else if String.eqb key "BITPIX" then Some (HInt 16)
  else if String.eqb key "NAXIS" then Some (HInt 0)
  else if String.eqb key "EXTEND" then Some (HBool true)
  else None.

(** One iteration of [for key in REQUIRED_KEYS]: [if key not in header:
    missing_keys.append(key); header[key] = ...]. *)
Definition fix_header_step (acc : gmap string hval * list string) (key : string)
    : gmap string hval * list string :=
  let '(header, missing_keys) := acc in
  match header !! key with
  | Some _ => (header, missing_keys)
  | None =>
    let missing_keys := missing_keys ++ [key] in
    match default_card key with
    | Some v => (<[key := v]> header, missing_keys)
    | None => (header, missing_keys)
    end
  end.

(** The loop: the header after it and [missing_keys]. *)
Definition fix_header (header : gmap string hval) : gmap string hval * list string :=
  fold_left fix_header_step REQUIRED_KEYS (header, []).

(* ------------------------------------------------------------------ *)
(** ** [load_spectrum_universal], 1-d image case (src/src/main.py,
       lines 87-97)                                                     *)
(* ------------------------------------------------------------------ *)

(** [crval + (np.arange(n) - crpix + 1) * cdelt] when [CRVAL1] and
    [CDELT1] are present ([CRPIX1] defaults to 1); [np.arange(n)]
    otherwise. *)
Definition image_wavelengths (crval cdelt crpix : option Q) (n_pixels : nat) : list Q :=
  let crpix := match crpix with Some c => c | None => 1%Q end in
  match crval, cdelt with
  | Some crval, Some cdelt =>
      map (fun i => crval + (Q_of_nat i - crpix + 1) * cdelt)%Q (seq 0 n_pixels)
  | _, _ => map Q_of_nat (seq 0 n_pixels)
  end.

(* ------------------------------------------------------------------ *)
(** ** Auxiliary predicates                                             *)
(* ------------------------------------------------------------------ *)

(** [key not in header] *)
Definition key_absent (header : gmap string hval) (key : string) : bool :=
  match header !! key with Some _ => false | None => true end.

(** A wavelength inside [[line_center - window, line_center + window]]. *)
Definition in_window (line_center window : Q) (w : Q) : bool :=
  Qle_bool (line_center - window) w && Qle_bool w (line_center + window).

(** A finite, strictly positive float ([ivar > 0] and finite). *)
Definition pos_fin (x : fl) : Prop := exists q, x = Fin q /\ (0 < q)%Q.

(** A line of [lines_dict] with a sample inside its [+-10] window. *)
Definition has_sample (wavelengths : list Q) (line : string * Q) : bool :=
  existsb (in_window (snd line) 10) wavelengths.

(** A spectrum with samples around [Hβ] and [Mg I 5172] and none
    around [Fe I 5328]. *)
Definition lines_wl : list Q := [4855; 4861; 4867; 5165; 5172; 5180]%Q.
Definition lines_flux : list Q := [1; 0; 1; 1; 0; 1]%Q.

(* ================================================================== *)
(** * Proofs                                                            *)
(* ================================================================== *)

Section RebinFacts.
Context {A : Type}.

Lemma length_chunks (n f : nat) (xs : list A) : length (chunks n f xs) = n.
Proof. revert xs. induction n; intros xs; simpl; auto. Qed.

Lemma nth_chunks (n f i : nat) (xs : list A) (d : list A) :
  i < n -> nth i (chunks n f xs) d = firstn f (skipn (i * f) xs).
Proof.
  revert i xs. induction n as [|n IH]; intros i xs Hi; [lia|].
  destruct i as [|i]; simpl; [reflexivity|].
  rewrite IH by lia. rewrite skipn_skipn. f_equal. f_equal. lia.
Qed.
End RebinFacts.

Lemma fold_left_Qplus_acc (xs : list Q) (a : Q) :
  fold_left Qplus xs a == a + qsum xs.
Proof.
  revert a. induction xs as [|x xs IH]; intros a; simpl.
  - ring.
  - rewrite IH. ring.
Qed.

Lemma block_firstn (f n i : nat) (xs : list Q) :
  i < n -> block f i (firstn (n * f) xs) = block f i xs.
Proof.
  intros Hi. unfold block.
  replace (n * f) with (i * f + (f + (n * f - i * f - f))) by nia.
  rewrite <- firstn_skipn_comm.
  rewrite firstn_firstn. f_equal. lia.
Qed.

Lemma length_block (f n i : nat) (xs : list Q) :
  i < n -> n * f <= length xs -> length (block f i xs) = f.
Proof.
  intros Hi Hl. unfold block. rewrite length_firstn, length_skipn. nia.
Qed.

Example rebin_example :
  option_map (fun '(a, b, c) => (map Qred a, map Qred b, map Qred c))
    (rebin_spectrum_Q [1; 2; 3; 4; 5]%Q [2; 2; 4; 4; 9]%Q [1; 4; 1; 1; 7]%Q 2)
  = Some ([3 # 2; 7 # 2]%Q, [2; 4]%Q, [8 # 5; 1]%Q).
Proof. reflexivity. Qed.

Lemma block_means_Q (n f : nat) (xs : list Q) :
  n * f <= length xs ->
  exists ys, block_means 0%Q Qplus Qdiv Q_of_nat n f xs = Some ys /\
    length ys = n /\
    forall i, i < n -> nth i ys 0%Q == block_avg f xs i.
Proof.
  intros Hl. unfold block_means, reshape.
  rewrite length_firstn, Nat.min_l by lia. rewrite Nat.eqb_refl.
  eexists; split; [reflexivity|]. split.
  - by rewrite length_map, length_chunks.
  - intros i Hi.
    rewrite (nth_indep _ _ (mean_row 0%Q Qplus Qdiv Q_of_nat []))
      by (rewrite length_map, length_chunks; lia).
    rewrite map_nth, nth_chunks by lia.
    fold (block f i (firstn (n * f) xs)). rewrite block_firstn by lia.
    unfold mean_row, sum_row, block_avg.
    rewrite (length_block f n i xs) by lia.
    rewrite fold_left_Qplus_acc. unfold Qdiv. ring.
Qed.

(** C1. [rebin_spectrum] is the identity for [factor <= 1]; for
    [factor >= 2] each output has [n = len / factor] entries, wavelength and
    flux are the means of the [n] full blocks of [factor] consecutive samples
    (the trailing remainder is dropped), and the output inverse variance of a
    block is [1 / mean (1 / ivar)] over the block. *)
Theorem rebin_spectrum_blocks (wl flux ivar : list Q) (factor : Z) :
  length flux = length wl -> length ivar = length wl ->
  ((factor <= 1)%Z -> rebin_spectrum_Q wl flux ivar factor = Some (wl, flux, ivar)) /\
  ((1 < factor)%Z ->
   let f := Z.to_nat factor in
   let n := length wl / f in
   exists wl_r flux_r ivar_r,
     rebin_spectrum_Q wl flux ivar factor = Some (wl_r, flux_r, ivar_r) /\
     length wl_r = n /\ length flux_r = n /\ length ivar_r = n /\
     forall i, i < n ->
       nth i wl_r 0%Q == block_avg f wl i /\
       nth i flux_r 0%Q == block_avg f flux i /\
       nth i ivar_r 0%Q == 1 / block_avg f (map (fun x => 1 / x)%Q ivar) i).
Proof.
  intros Hf Hi. split.
  - intros Hle. unfold rebin_spectrum_Q, rebin_spectrum.
    by rewrite (proj2 (Z.leb_le _ _) Hle).
  - intros Hlt f n.
    assert (Hnf : n * f <= length wl).
    { subst n. rewrite Nat.mul_comm. apply Nat.Div0.mul_div_le. }
    unfold rebin_spectrum_Q, rebin_spectrum.
    rewrite (proj2 (Z.leb_gt _ _) Hlt). fold f n.
    destruct (block_means_Q n f wl Hnf) as (wl_r & -> & Hwl & Hwl').
    destruct (block_means_Q n f (map (Qdiv 1) ivar)) as (var_r & -> & Hv & Hv');
      [rewrite length_map; lia|].
    destruct (block_means_Q n f flux) as (flux_r & -> & Hfl & Hfl'); [lia|].
    exists wl_r, flux_r, (map (Qdiv 1) var_r).
    split; [reflexivity|].
    split; [done|]. split; [done|]. split; [by rewrite length_map|].
    intros i Hin. split; [by apply Hwl'|]. split; [by apply Hfl'|].
    rewrite (nth_indep _ _ (Qdiv 1 0)) by (rewrite length_map; lia).
    rewrite map_nth. rewrite (Hv' i Hin). reflexivity.
Qed.

(** The output inverse variance is not the plain mean of [ivar]: for the
    block [1; 4] the code gives [8/5], the mean of [ivar] is [5/2]. *)
Example rebin_ivar_not_mean :
  option_map (fun '(_, _, c) => map Qred c) (rebin_spectrum_Q [1; 2]%Q [1; 1]%Q [1; 4]%Q 2)
  = Some [8 # 5]%Q.
Proof. reflexivity. Qed.

(** ** Line enhancement on constant input *)

Lemma fmin2_self (x : fl) : fmin2 x x = x.
Proof.
  destruct x as [q| |[|]]; simpl; try reflexivity.
  unfold qltb.
  destruct (Qle_bool q q) eqn:E; [reflexivity|].
  exfalso. apply Bool.not_true_iff_false in E. apply E, Qle_bool_iff, Qle_refl.
Qed.

Lemma fmax2_self (x : fl) : fmax2 x x = x.
Proof.
  destruct x as [q| |[|]]; simpl; try reflexivity.
  unfold qltb. destruct (Qle_bool q q) eqn:E; [reflexivity|].
  exfalso. apply Bool.not_true_iff_false in E. apply E, Qle_bool_iff, Qle_refl.
Qed.

Lemma fold_fmin2_repeat (x : fl) (k : nat) : fold_left fmin2 (repeat x k) x = x.
Proof. induction k; simpl; [done|]. by rewrite fmin2_self. Qed.

Lemma fold_fmax2_repeat (x : fl) (k : nat) : fold_left fmax2 (repeat x k) x = x.
Proof. induction k; simpl; [done|]. by rewrite fmax2_self. Qed.

(** [(x - x) / (x - x)] is NaN for every float [x]. *)
Lemma fdiv_fsub_self (x : fl) : fdiv (fsub x x) (fsub x x) = NaN.
Proof.
  destruct x as [q| |[|]]; simpl; try reflexivity.
  assert (Hq : Qeq_bool (q + - q) 0 = true) by (apply Qeq_bool_iff; ring).
  by rewrite Hq.
Qed.

(** C4 (counterexample).  On the constant array [[1; 1]] with
    [enhancement_factor = 3/2], [enhance_line_detection] does not return its
    input: the zero denominator [max - min] is not guarded against. *)
Lemma enhance_line_detection_constant_counterexample :
  ~ (forall (pow_fin : Q -> Q -> fl) (c e : Q), (0 < e)%Q ->
       enhance_line_detection pow_fin [Fin c; Fin c] e = Some [Fin c; Fin c]).
Proof.
  intros H. specialize (H (fun q _ => Fin q) 1%Q (3 # 2)).
  assert (He : (0 < 3 # 2)%Q) by (vm_compute; reflexivity).
  specialize (H He). vm_compute in H. discriminate H.
Qed.

(** C4 (amended).  For every non-empty constant array and every
    [enhancement_factor > 0], [max - min] is zero, [0 / 0] is NaN, and
    [enhance_line_detection] returns an array of the same length whose
    elements are all NaN. *)
Theorem enhance_line_detection_constant_nan (pow_fin : Q -> Q -> fl) (x : fl)
    (n : nat) (e : Q) :
  0 < n -> (0 < e)%Q ->
  enhance_line_detection pow_fin (repeat x n) e = Some (repeat NaN n).
Proof.
  intros Hn He. destruct n as [|k]; [lia|].
  assert (Hmn : np_min (repeat x (S k)) = Some x) by (apply (f_equal Some), fold_fmin2_repeat).
  assert (Hmx : np_max (repeat x (S k)) = Some x) by (apply (f_equal Some), fold_fmax2_repeat).
  assert (He0 : Qeq_bool e 0 = false).
  { apply Bool.not_true_iff_false. intros Hq. apply Qeq_bool_iff in Hq.
    rewrite Hq in He. discriminate He. }
  unfold enhance_line_detection. rewrite Hmn, Hmx. f_equal.
  rewrite !map_map, map_repeat. f_equal.
  rewrite fdiv_fsub_self. unfold fpow. by rewrite He0.
Qed.

Lemma enhance_line_detection_constant_nan_witness :
  (0 < 2 /\ (0 < 3 # 2)%Q) /\
  enhance_line_detection (fun q _ => Fin q) (repeat (Fin 1) 2) (3 # 2) = Some (repeat NaN 2).
Proof.
  split; [split; [lia | vm_compute; reflexivity]|].
  apply (enhance_line_detection_constant_nan (fun q _ => Fin q) (Fin 1) 2 (3 # 2));
    [lia | vm_compute; reflexivity].
Defined.

(** ** The empty-spectrum path of [main] *)

Section RebinLength.
Context {A : Type} (zero one : A) (add div : A -> A -> A) (of_nat : nat -> A).

Lemma block_means_length (n f : nat) (xs : list A) :
  n * f <= length xs ->
  exists ys, block_means zero add div of_nat n f xs = Some ys /\ length ys = n.
Proof.
  intros Hl. unfold block_means, reshape.
  rewrite length_firstn, Nat.min_l by lia. rewrite Nat.eqb_refl.
  eexists; split; [reflexivity|]. by rewrite length_map, length_chunks.
Qed.

(** On aligned arrays the rebinner never fails; its flux output has
    [len / factor] entries for [factor >= 2], [len] otherwise. *)
Lemma rebin_spectrum_length (wl flux ivar : list A) (factor : Z) :
  length flux = length wl -> length ivar = length wl ->
  exists wl_r flux_r ivar_r,
    rebin_spectrum zero one add div of_nat wl flux ivar factor
      = Some (wl_r, flux_r, ivar_r) /\
    length flux_r =
      (if (factor <=? 1)%Z then length wl else length wl / Z.to_nat factor).
Proof.
  intros Hf Hi. unfold rebin_spectrum.
  destruct (factor <=? 1)%Z eqn:Hle; [by exists wl, flux, ivar|].
  set (f := Z.to_nat factor). set (n := length wl / f).
  assert (Hnf : n * f <= length wl).
  { subst n. rewrite Nat.mul_comm. apply Nat.Div0.mul_div_le. }
  destruct (block_means_length n f wl Hnf) as (wl_r & -> & _).
  destruct (block_means_length n f (map (div one) ivar)) as (var_r & -> & _);
    [rewrite length_map; lia|].
  destruct (block_means_length n f flux) as (flux_r & -> & Hfl); [lia|].
  by exists wl_r, flux_r, (map (div one) var_r).
Qed.
End RebinLength.

Lemma apply_mask_length {X : Type} (m : list bool) (xs : list X) :
  length m = length xs ->
  apply_mask m xs = Some (map snd (filter (fun p => fst p = true) (zip m xs))) /\
  length (map snd (filter (fun p => fst p = true) (zip m xs)))
    = length (filter (fun b => b = true) m).
Proof.
  intros Hl. unfold apply_mask. rewrite Hl, Nat.eqb_refl. split; [done|].
  rewrite length_map. revert xs Hl. induction m as [|b m IH]; intros [|x xs] Hl;
    simpl in *; try done.
  rewrite !filter_cons. simpl.
  destruct (decide (b = true)); simpl; rewrite IH; auto.
Qed.

Lemma valid_mask_aligned (flux ivar : list fl) :
  length ivar = length flux ->
  exists m, valid_mask flux ivar = Some m /\ length m = length flux.
Proof.
  intros Hl. unfold valid_mask, broadcast2. rewrite Hl, Nat.eqb_refl.
  eexists; split; [reflexivity|]. rewrite length_zip_with. lia.
Qed.

(** C9 (counterexample).  When no sample passes [valid_mask] ([ivar] is
    zero or NaN everywhere), [main] neither raises nor reports an
    exception: it prints its message and returns normally.  And the empty
    spectrum is not the only condition that ends the analysis without a
    report: a wavelength array shorter than [flux] and [ivar] makes
    [wl[m]] raise [IndexError], which [main]'s [except Exception] catches,
    although every sample is valid. *)
Lemma main_core_empty_counterexample :
  main_core (fun _ _ _ => Finished) 4 [Fin 4000; Fin 4001] [Fin 1; Fin 1] [Fin 0; NaN]
  = Returned_early empty_rebin_msg /\
  main_core (fun _ _ _ => Finished) 1 [Fin 4000] [Fin 1; Fin 1] [Fin 100; Fin 100]
  = Exception_caught.
Proof. split; vm_compute; reflexivity. Qed.

(** C9 (amended).  If [valid_mask] keeps no sample, or keeps fewer samples
    than [REBIN_FACTOR >= 2] so that rebinning leaves no full block, [main]
    prints "Error: El array está vacío después del rebinado." and returns
    normally: no exception is raised and the later stages (whatever they
    do) are not run.  This is not the only condition that ends the
    analysis without a report: when the wavelength array and the
    flux/ivar arrays differ in length, [wl[m]] raises [IndexError] and the
    run ends in [main]'s [except Exception]. *)
Theorem main_core_empty_returns_early
    (rest_of_main : list fl -> list fl -> list fl -> main_outcome)
    (rebin_factor : Z) (wl flux ivar : list fl) (m : list bool) :
  (length flux = length wl -> length ivar = length wl ->
   valid_mask flux ivar = Some m ->
   (length (filter (fun b => b = true) m) = 0 \/
    ((1 < rebin_factor)%Z /\
     length (filter (fun b => b = true) m) < Z.to_nat rebin_factor)) ->
   main_core rest_of_main rebin_factor wl flux ivar = Returned_early empty_rebin_msg) /\
  (length ivar = length flux -> length wl <> length flux ->
   main_core rest_of_main rebin_factor wl flux ivar = Exception_caught).
Proof.
  split.
  - intros Hf Hi Hm Hempty.
    destruct (valid_mask_aligned flux ivar) as (m' & Hm' & Hlm); [lia|].
    rewrite Hm in Hm'. injection Hm' as <-.
    unfold main_core. rewrite Hm.
    destruct (apply_mask_length m wl) as [-> Hw]; [lia|].
    destruct (apply_mask_length m flux) as [-> Hfl]; [lia|].
    destruct (apply_mask_length m ivar) as [-> Hiv]; [lia|].
    edestruct (rebin_spectrum_length (Fin 0) (Fin 1) fadd fdiv fl_of_nat)
      as (wl_r & flux_r & ivar_r & Hr & Hlen); [| |unfold rebin_spectrum_fl; rewrite Hr];
      [rewrite Hfl, Hw; reflexivity | rewrite Hiv, Hw; reflexivity |].
    rewrite Hw in Hlen.
    assert (Hz : length flux_r = 0).
    { rewrite Hlen. destruct Hempty as [H0 | [H1 H2]].
      - rewrite H0. destruct (rebin_factor <=? 1)%Z; [done|]. apply Nat.Div0.div_0_l.
      - rewrite (proj2 (Z.leb_gt _ _) H1). by apply Nat.div_small. }
    by rewrite Hz.
  - intros Hi Hw.
    destruct (valid_mask_aligned flux ivar Hi) as (m' & Hm' & Hlm).
    unfold main_core. rewrite Hm'.
    assert (Hn : apply_mask m' wl = None).
    { unfold apply_mask. destruct (Nat.eqb (length m') (length wl)) eqn:E; [|done].
      apply Nat.eqb_eq in E. lia. }
    by rewrite Hn.
Qed.

Lemma main_core_empty_returns_early_witness :
  (length [Fin 1; Fin 1] = length [Fin 4000; Fin 4001] /\
   length [Fin 100; Fin 100] = length [Fin 4000; Fin 4001] /\
   valid_mask [Fin 1; Fin 1] [Fin 100; Fin 100] = Some [true; true] /\
   (length (filter (fun b => b = true) [true; true]) = 0 \/
    ((1 < 4)%Z /\ length (filter (fun b => b = true) [true; true]) < Z.to_nat 4))) /\
  main_core (fun _ _ _ => Finished) 4 [Fin 4000; Fin 4001] [Fin 1; Fin 1] [Fin 100; Fin 100]
    = Returned_early empty_rebin_msg /\
  main_core (fun _ _ _ => Finished) 1 [Fin 4000] [Fin 1; Fin 1] [Fin 100; Fin 100]
    = Exception_caught.
Proof.
  assert (H : (1 < 4)%Z /\ length (filter (fun b => b = true) [true; true]) < Z.to_nat 4)
    by (split; [lia | vm_compute; lia]).
  split; [split; [reflexivity | split; [reflexivity | split; [vm_compute; reflexivity | right; exact H]]]|].
  split.
  - apply (proj1 (main_core_empty_returns_early (fun _ _ _ => Finished) 4
             [Fin 4000; Fin 4001] [Fin 1; Fin 1] [Fin 100; Fin 100] [true; true]));
      [reflexivity | reflexivity | vm_compute; reflexivity | right; exact H].
  - apply (proj2 (main_core_empty_returns_early (fun _ _ _ => Finished) 1
             [Fin 4000] [Fin 1; Fin 1] [Fin 100; Fin 100] [true; true]));
      [reflexivity | discriminate].
Defined.

Lemma rebin_spectrum_blocks_witness :
  (length [2; 2; 4; 4; 9]%Q = length [1; 2; 3; 4; 5]%Q /\
   length [1; 4; 1; 1; 7]%Q = length [1; 2; 3; 4; 5]%Q) /\
  ((2 <= 1)%Z -> rebin_spectrum_Q [1; 2; 3; 4; 5]%Q [2; 2; 4; 4; 9]%Q [1; 4; 1; 1; 7]%Q 2
                 = Some ([1; 2; 3; 4; 5]%Q, [2; 2; 4; 4; 9]%Q, [1; 4; 1; 1; 7]%Q)) /\
  ((1 < 2)%Z ->
   exists wl_r flux_r ivar_r,
     rebin_spectrum_Q [1; 2; 3; 4; 5]%Q [2; 2; 4; 4; 9]%Q [1; 4; 1; 1; 7]%Q 2
       = Some (wl_r, flux_r, ivar_r) /\
     length wl_r = 2 /\ length flux_r = 2 /\ length ivar_r = 2 /\
     forall i, i < 2 ->
       nth i wl_r 0%Q == block_avg 2 [1; 2; 3; 4; 5]%Q i /\
       nth i flux_r 0%Q == block_avg 2 [2; 2; 4; 4; 9]%Q i /\
       nth i ivar_r 0%Q == 1 / block_avg 2 (map (fun x => 1 / x)%Q [1; 4; 1; 1; 7]%Q) i).
Proof.
  split; [split; reflexivity|].
  apply (rebin_spectrum_blocks [1; 2; 3; 4; 5]%Q [2; 2; 4; 4; 9]%Q [1; 4; 1; 1; 7]%Q 2);
    reflexivity.
Defined.

(** ** The moving-average fallback of [try_savgol] *)

Example try_savgol_fallback_3 :
  option_map (map Qred) (try_savgol_fallback [1; 2; 3]%Q 35) = Some [4 # 3; 2; 8 # 3]%Q.
Proof. reflexivity. Qed.

Example try_savgol_fallback_1 :
  option_map (map Qred) (try_savgol_fallback [5]%Q 35) = Some [5]%Q.
Proof. reflexivity. Qed.

Lemma fallback_window_odd (moving_avg_window : Z) (len : nat) :
  exists p : nat, fallback_window moving_avg_window len = Z.of_nat (2 * p + 1) /\ 1 <= p.
Proof.
  unfold fallback_window, shrink_window.
  set (w0 := Z.max 3 moving_avg_window).
  assert (Hw0 : (3 <= w0)%Z) by (subst w0; lia).
  destruct (Z.of_nat len <? (if Z.even w0 then (w0 + 1)%Z else w0))%Z.
  - destruct (Nat.even len) eqn:He.
    + apply Nat.even_spec in He. destruct He as [k ->].
      destruct (decide (2 <= k)).
      * exists (k - 1). split; lia.
      * exists 1. split; lia.
    + assert (Ho : Nat.odd len = true) by (unfold Nat.odd; by rewrite He).
      apply Nat.odd_spec in Ho. destruct Ho as [k ->].
      destruct (decide (1 <= k)).
      * exists k. split; lia.
      * exists 1. split; lia.
  - destruct (Z.even w0) eqn:He.
    + apply Z.even_spec in He. destruct He as [k Hk].
      exists (Z.to_nat k). split; lia.
    + assert (Ho : Z.odd w0 = true) by (rewrite <- Z.negb_even; by rewrite He).
      apply Z.odd_spec in Ho. destruct Ho as [k Hk].
      exists (Z.to_nat k). split; lia.
Qed.

Lemma conv_valid_length (a v : list Q) :
  v <> [] -> length v <= length a ->
  exists out, conv_valid a v = Some out /\ length out = length a - length v + 1.
Proof.
  intros Hv Hl. unfold conv_valid.
  destruct a as [|x a]; [destruct v; [done | simpl in Hl; lia]|].
  destruct v as [|y v]; [done|].
  cbv zeta. rewrite (proj2 (Nat.ltb_ge _ _) Hl).
  eexists; split; [reflexivity|]. by rewrite length_map, length_seq.
Qed.

Lemma try_savgol_fallback_length (y : list Q) (moving_avg_window : Z) :
  1 <= length y ->
  exists out, try_savgol_fallback y moving_avg_window = Some out /\ length out = length y.
Proof.
  intros Hy. unfold try_savgol_fallback.
  destruct (fallback_window_odd moving_avg_window (length y)) as (p & Hw & Hp).
  rewrite Hw.
  replace (Z.to_nat (Z.of_nat (2 * p + 1) / 2)) with p
    by (rewrite <- (Nat2Z.inj_div _ 2), Nat2Z.id; symmetry;
        rewrite Nat.add_comm, Nat.mul_comm, Nat.div_add by lia; reflexivity).
  set (k := repeat (1 / inject_Z (Z.of_nat (2 * p + 1)))%Q (Z.to_nat (Z.of_nat (2 * p + 1)))).
  assert (Hk : length k = 2 * p + 1) by (subst k; rewrite repeat_length; lia).
  assert (Hk0 : k <> []) by (intros E; rewrite E in Hk; simpl in Hk; lia).
  assert (Hpad : forall y_pad, length y_pad = length y + 2 * p ->
            exists out, conv_valid y_pad k = Some out /\ length out = length y).
  { intros y_pad Hl. destruct (conv_valid_length y_pad k) as (out & Ho & Hlo); [done | lia |].
    exists out. split; [done | lia]. }
  destruct (Z.of_nat (length y) <? Z.of_nat (2 * p + 1))%Z.
  - apply Hpad. unfold pad_constant. rewrite !length_app, !repeat_length. lia.
  - destruct p as [|p']; [lia|]. destruct y as [|x y']; [simpl in Hy; lia|].
    cbn [pad_edge]. apply Hpad. rewrite !length_app, !repeat_length. simpl. lia.
Qed.

(** C3.  For every non-empty flux array and every requested smoothing
    window, polynomial order and fallback window: whenever the primary
    Savitzky-Golay filter raises, [try_savgol] takes the moving-average
    branch, which succeeds and returns an array of the input's length. *)
Theorem try_savgol_fallback_same_length
    (savgol_filter : list Q -> Z -> Z -> option (list Q))
    (y : list Q) (window poly moving_avg_window : Z) :
  1 <= length y ->
  savgol_filter y (savgol_window window poly (length y)) poly = None ->
  exists out, try_savgol savgol_filter y window poly moving_avg_window = Some out /\
              length out = length y.
Proof.
  intros Hy Hsg. unfold try_savgol. rewrite Hsg.
  by apply try_savgol_fallback_length.
Qed.

Lemma try_savgol_fallback_same_length_witness :
  (1 <= length [5]%Q /\
   (fun (_ : list Q) (_ _ : Z) => @None (list Q)) [5]%Q (savgol_window 61 2 (length [5]%Q)) 2%Z
     = None) /\
  exists out, try_savgol (fun _ _ _ => None) [5]%Q 61 2 35 = Some out /\ length out = length [5]%Q.
Proof.
  split; [split; [simpl; lia | reflexivity]|].
  apply (try_savgol_fallback_same_length (fun _ _ _ => None) [5]%Q 61 2 35);
    [simpl; lia | reflexivity].
Defined.

(** ** The running percentile *)

Example running_percentile_short :
  running_percentile [Some 3; None; Some 1; Some 2]%Q 301 90
  = Some [Some 2; Some 2; Some 2; Some 2]%Q.
Proof. reflexivity. Qed.

(** The loop [for i in range(len(y)): cont[i] = v(i)] writes [v i] at
    every index of the range and keeps the length. *)
Lemma fold_insert_seq {X : Type} (v : nat -> X) (s k : nat) (l : list X) :
  s + k <= length l ->
  let r := fold_left (fun c i => <[i := v i]> c) (seq s k) l in
  length r = length l /\
  forall i, i < length l ->
    r !! i = if decide (s <= i < s + k) then Some (v i) else l !! i.
Proof.
  revert s l. induction k as [|k IH]; intros s l Hk; cbv zeta.
  - split; [done|]. intros i Hi. simpl. destruct (decide _); [lia | done].
  - simpl. destruct (IH (S s) (<[s := v s]> l)) as [Hl Hr];
      [rewrite length_insert; lia|].
    rewrite length_insert in Hl, Hr. split; [done|].
    intros i Hi. rewrite Hr by done.
    destruct (decide (S s <= i < S s + k)); destruct (decide (s <= i < s + S k));
      try lia.
    + done.
    + assert (i = s) as -> by lia. by rewrite list_lookup_insert_eq by lia.
    + rewrite list_lookup_insert_ne by lia. done.
Qed.

(** C7.  With [w = max(51, win | 1)]: when [w >= len y], [running_percentile]
    returns an array of [len y] copies of the global median of the finite
    values of [y]; otherwise (for [0 <= q <= 100]) it returns an array of
    length [len y] whose entry [i] is the [q]-th percentile of
    [y[max(0, i - w//2) : min(len y, i + w//2 + 1)]]. *)
Theorem running_percentile_spec (y : list (option Q)) (win : Z) (q : Q) :
  let w := Z.max 51 (Z.lor win 1) in
  let half := Z.to_nat (w / 2) in
  ((Z.of_nat (length y) <= w)%Z ->
   running_percentile y win q = Some (repeat (nanmedian y) (length y))) /\
  ((w < Z.of_nat (length y))%Z -> (0 <= q <= 100)%Q ->
   exists cont, running_percentile y win q = Some cont /\
     length cont = length y /\
     forall i, i < length y ->
       cont !! i = Some (nanpercentile (slice (i - half) (Nat.min (length y) (i + half + 1)) y) q)).
Proof.
  intros w half. unfold running_percentile. fold w. split.
  - intros Hle. by rewrite (proj2 (Z.geb_le _ _) Hle).
  - intros Hlt [Hq0 Hq1].
    assert (Hge : (w >=? Z.of_nat (length y))%Z = false)
      by (rewrite Z.geb_leb; apply Z.leb_gt; lia).
    rewrite Hge.
    rewrite (proj2 (Qle_bool_iff _ _) Hq0), (proj2 (Qle_bool_iff _ _) Hq1). simpl negb.
    cbv iota. fold half.
    eexists; split; [reflexivity|].
    destruct (fold_insert_seq
                (fun i => nanpercentile (slice (i - half) (Nat.min (length y) (i + half + 1)) y) q)
                0 (length y) (repeat None (length y))) as [Hl Hr];
      [rewrite repeat_length; lia|].
    rewrite repeat_length in Hl, Hr. split; [exact Hl|].
    intros i Hi. rewrite Hr by done. destruct (decide _); [done | lia].
Qed.

Lemma running_percentile_spec_witness :
  running_percentile [Some 3; None; Some 1; Some 2]%Q 301 90
  = Some (repeat (nanmedian [Some 3; None; Some 1; Some 2]%Q) 4).
Proof.
  apply (proj1 (running_percentile_spec [Some 3; None; Some 1; Some 2]%Q 301 90)).
  vm_compute. discriminate.
Defined.

(** ** The SNR estimate *)

Lemma fold_append_flat_map {X Y : Type} (body : list Y -> X -> list Y) (F : X -> list Y)
    (l : list X) (acc : list Y) :
  (forall acc x, body acc x = acc ++ F x) ->
  fold_left body l acc = acc ++ flat_map F l.
Proof.
  intros Hb. revert acc. induction l as [|x l IH]; intros acc; simpl.
  - by rewrite app_nil_r.
  - rewrite IH, Hb. by rewrite app_assoc.
Qed.

Lemma flat_map_of_map {X Y R : Type} (g : Y -> list R) (h : X -> Y) (l : list X) :
  flat_map g (map h l) = flat_map (fun x => g (h x)) l.
Proof. induction l as [|x l IH]; simpl; [done | by rewrite IH]. Qed.

Lemma segments_fuel_slices (w : nat) (fuel : nat) (xs : list Q) :
  0 < w -> length xs / w <= fuel ->
  segments_fuel fuel w xs = map (fun i => slice (i * w) ((i + 1) * w) xs) (seq 0 (length xs / w)).
Proof.
  intros Hw. revert xs. induction fuel as [|fuel IH]; intros xs Hf.
  - assert (length xs / w = 0) as -> by lia. reflexivity.
  - simpl. destruct (Nat.ltb (length xs) w) eqn:Hlt.
    + apply Nat.ltb_lt in Hlt. by rewrite Nat.div_small.
    + apply Nat.ltb_ge in Hlt.
      assert (Hd : length xs / w = S (length (skipn w xs) / w)).
      { rewrite length_skipn.
        replace (length xs) with (1 * w + (length xs - w)) at 1 by lia.
        rewrite Nat.div_add_l by lia. lia. }
      rewrite Hd. simpl seq. rewrite IH by lia. simpl map.
      f_equal.
      * unfold slice. simpl. f_equal. lia.
      * rewrite <- seq_shift, map_map. apply map_ext. intros i.
        unfold slice. rewrite skipn_skipn. f_equal; [nia | f_equal; nia].
Qed.

(** C8.  For every flux array and window [w > 0] (the report uses 100),
    [calculate_snr] returns the median, over the consecutive
    non-overlapping segments of [w] samples with [std > 0], of
    [median / std]; it returns 0 when no segment qualifies (in particular
    when the array is shorter than one segment). *)
Theorem calculate_snr_segments (sqrt : Q -> Q) (flux : list Q) (window : Z) :
  (0 < window)%Z ->
  calculate_snr sqrt flux window = Some (snr_of_segments sqrt (Z.to_nat window) flux).
Proof.
  intros Hw. unfold calculate_snr, snr_of_segments, segments.
  rewrite (proj2 (Z.eqb_neq _ _)) by lia.
  set (w := Z.to_nat window).
  assert (Hn : Z.to_nat (Z.of_nat (length flux) / window) = length flux / w).
  { rewrite Z2Nat.inj_div by lia. by rewrite Nat2Z.id. }
  rewrite Hn.
  rewrite (segments_fuel_slices w (length flux) flux) by
    (try lia; apply Nat.Div0.div_le_upper_bound; nia).
  rewrite (fold_append_flat_map _
             (fun i => if qltb 0 (np_std sqrt (slice (i * w) ((i + 1) * w) flux))
                       then [(median (slice (i * w) ((i + 1) * w) flux) /
                              np_std sqrt (slice (i * w) ((i + 1) * w) flux))%Q]
                       else [])).
  - simpl app. rewrite flat_map_of_map. reflexivity.
  - intros acc i. cbv zeta. destruct (qltb _ _); [done | by rewrite app_nil_r].
Qed.

(** An array shorter than one segment has SNR 0. *)
Example calculate_snr_short :
  calculate_snr (fun x => x) [1; 2; 3]%Q 100 = Some 0%Q.
Proof. reflexivity. Qed.

Lemma calculate_snr_segments_witness :
  (0 < 2)%Z /\
  calculate_snr (fun x => x) [1; 3; 5; 5; 7]%Q 2
  = Some (snr_of_segments (fun x => x) 2 [1; 3; 5; 5; 7]%Q).
Proof.
  split; [lia|]. apply (calculate_snr_segments (fun x => x) [1; 3; 5; 5; 7]%Q 2). lia.
Defined.

(** ** The robust redshift *)

Definition example_redshifts : list Q := [1 # 1000; 12 # 10000; 9 # 10000; 5 # 100]%Q.

Lemma qltb_spec (x y : Q) : qltb x y = true <-> (x < y)%Q.
Proof.
  unfold qltb. rewrite Bool.negb_true_iff. split.
  - intros H. apply Qnot_le_lt. intros Hle. apply Qle_bool_iff in Hle. congruence.
  - intros H. apply Bool.not_true_iff_false. intros Hle. apply Qle_bool_iff in Hle.
    apply (Qlt_not_le _ _ H Hle).
Qed.

(** C5.  For every non-empty list of redshifts, with [m] its median and
    [MAD] its median absolute deviation, the retained values are exactly
    those with [|z - m| < sigma_clip * MAD]; when some value is retained the
    result is their mean, their standard deviation and their number.  On
    [[0.001; 0.0012; 0.0009; 0.05]] with [sigma_clip = 2] the retained
    values are the first three, and [n_lines_used = 3]. *)
Theorem robust_redshift_sigma_clip (sqrt : Q -> Q) (redshifts : list Q) (sigma_clip : Q) :
  redshifts <> [] ->
  let m := median redshifts in
  let mad := median_abs_deviation redshifts in
  let kept := sigma_clip_filter redshifts m mad sigma_clip in
  (forall z, In z kept <-> In z redshifts /\ (Qabs (z - m) < sigma_clip * mad)%Q) /\
  (kept <> [] ->
   robust_redshift_calculation sqrt redshifts sigma_clip
   = (Some (mean kept), Some (np_std sqrt kept), length kept)) /\
  (sigma_clip_filter example_redshifts (median example_redshifts)
     (median_abs_deviation example_redshifts) 2 = [1 # 1000; 12 # 10000; 9 # 10000]%Q /\
   snd (robust_redshift_calculation sqrt example_redshifts 2) = 3).
Proof.
  intros Hne m mad kept. split; [|split].
  - intros z. unfold kept, sigma_clip_filter. rewrite filter_In, qltb_spec. tauto.
  - intros Hk. unfold robust_redshift_calculation.
    destruct redshifts as [|r rs]; [done|]. fold m mad kept.
    destruct kept as [|k ks]; [done | reflexivity].
  - split; [vm_compute; reflexivity | reflexivity].
Qed.

Lemma robust_redshift_sigma_clip_witness :
  ([0; 1; 5]%Q <> []) /\
  robust_redshift_calculation (fun x => x) [0; 1; 5]%Q 2
  = (Some (mean (sigma_clip_filter [0; 1; 5]%Q (median [0; 1; 5]%Q)
                   (median_abs_deviation [0; 1; 5]%Q) 2)),
     Some (np_std (fun x => x) (sigma_clip_filter [0; 1; 5]%Q (median [0; 1; 5]%Q)
                   (median_abs_deviation [0; 1; 5]%Q) 2)),
     length (sigma_clip_filter [0; 1; 5]%Q (median [0; 1; 5]%Q)
                   (median_abs_deviation [0; 1; 5]%Q) 2)).
Proof.
  split; [discriminate|].
  apply (robust_redshift_sigma_clip (fun x => x) [0; 1; 5]%Q 2); [discriminate | vm_compute; discriminate].
Defined.

(** C6.  For every non-empty list of redshifts on which the sigma-clip
    keeps nothing, the result is the unfiltered median, the unfiltered MAD
    and the full list size (so [n_lines_used = n_lines_total]); on a
    non-empty list [n_lines_used] is never 0. *)
Theorem robust_redshift_all_outliers (sqrt : Q -> Q) (redshifts : list Q) (sigma_clip : Q) :
  redshifts <> [] ->
  (sigma_clip_filter redshifts (median redshifts) (median_abs_deviation redshifts) sigma_clip = [] ->
   robust_redshift_calculation sqrt redshifts sigma_clip
   = (Some (median redshifts), Some (median_abs_deviation redshifts), length redshifts)) /\
  1 <= snd (robust_redshift_calculation sqrt redshifts sigma_clip).
Proof.
  intros Hne. unfold robust_redshift_calculation.
  destruct redshifts as [|r rs]; [done|].
  destruct (sigma_clip_filter _ _ _ _) as [|k ks] eqn:Hk.
  - split; [done|]. simpl. lia.
  - split; [done|]. simpl. lia.
Qed.

Lemma robust_redshift_all_outliers_witness :
  robust_redshift_calculation (fun x => x) [1; 1; 1]%Q 2
  = (Some (median [1; 1; 1]%Q), Some (median_abs_deviation [1; 1; 1]%Q), 3).
Proof.
  apply (robust_redshift_all_outliers (fun x => x) [1; 1; 1]%Q 2); [discriminate|].
  vm_compute. reflexivity.
Defined.

(** ** FWHM of a line *)

(** C2 (failing input).  A symmetric dip sampled at wavelengths [0..10]
    with flux [1,1,1,1,0.4,0,0.4,1,1,1,1] around [line_center = 5]: the
    continuum is 1, the half maximum 1/2, and the qualifying samples
    nearest to the minimum are at 4 (left) and 6 (right), 2 apart.  The
    code's right-hand search [flux_window[min_flux_idx:]] starts at the
    minimum itself, so it reports [fwhm = 1]. *)
Theorem measure_line_parameters_fwhm_dip (simpson : list Q -> list Q -> Q) :
  exists m,
    measure_line_parameters simpson dip_wl dip_flux 5 10 = Some (Some m) /\
    observed_center m = 5%Q /\ continuum_level m == 1 /\
    fwhm m = Some 1%Q /\
    fwhm_strict_sides dip_wl dip_flux 5 (1 # 2) = Some 2%Q.
Proof.
  eexists. split; [reflexivity|].
  split; [reflexivity|]. split; [reflexivity|].
  split; vm_compute; reflexivity.
Qed.

(** ** Every reported absorption line carries its redshift *)

Section ReportLoop.
Variable simpson : list Q -> list Q -> Q.
Variables (wavelengths flux : list Q) (all_lines : list (string * Q)).

(** Locations at or after [next_loc] are unallocated, every stored name
    points below [next_loc] to a dict carrying the redshift of a line of
    [all_lines] with that name. *)
Definition lines_inv (st : report_state) : Prop :=
  (forall k, (next_loc st <= k)%positive -> heap st !! k = None) /\
  (forall name l, absorption_lines st !! name = Some l ->
     (l < next_loc st)%positive /\
     exists rest m, In (name, rest) all_lines /\ heap st !! l = Some m /\
       redshift m = Some (calculate_redshift (observed_center m) rest)).

Lemma lines_inv_initial : lines_inv initial_report_state.
Proof. split; simpl; [intros; apply lookup_empty | intros name l H; by rewrite lookup_empty in H]. Qed.

Lemma lines_inv_step (st st' : report_state) (name : string) (rest : Q) :
  lines_inv st -> In (name, rest) all_lines ->
  absorption_line_step simpson wavelengths flux st (name, rest) = Some st' ->
  lines_inv st'.
Proof.
  intros [Hfresh Habs] Hin Hstep. unfold absorption_line_step in Hstep.
  destruct (measure_line_parameters simpson wavelengths flux rest 10) as [[m|]|];
    [| by injection Hstep as <- | discriminate].
  rewrite lookup_insert_eq in Hstep. injection Hstep as <-.
  split; simpl.
  - intros k Hk. rewrite !lookup_insert_ne by lia. apply Hfresh. lia.
  - intros name' l' Hl'. apply lookup_insert_Some in Hl'.
    destruct Hl' as [[<- <-] | [Hne Hold]].
    + split; [lia|]. exists rest, (set_redshift m (calculate_redshift (observed_center m) rest)).
      split; [done|]. split; [by rewrite lookup_insert_eq|]. reflexivity.
    + destruct (Habs name' l' Hold) as [Hlt (r & m' & Hr & Hm' & Hz)].
      split; [lia|]. exists r, m'. split; [done|].
      split; [|done]. rewrite !lookup_insert_ne by lia. done.
Qed.

Lemma absorption_loop_none (lines : list (string * Q)) :
  fold_left (fun st line => match st with
                            | Some st => absorption_line_step simpson wavelengths flux st line
                            | None => None
                            end) lines None = None.
Proof. induction lines; simpl; auto. Qed.

Lemma lines_inv_loop (lines : list (string * Q)) (st0 st : report_state) :
  (forall x, In x lines -> In x all_lines) -> lines_inv st0 ->
  fold_left (fun st line => match st with
                            | Some st => absorption_line_step simpson wavelengths flux st line
                            | None => None
                            end) lines (Some st0) = Some st ->
  lines_inv st.
Proof.
  revert st0. induction lines as [|[name rest] lines IH]; intros st0 Hincl Hinv Hrun.
  - simpl in Hrun. by injection Hrun as <-.
  - cbn [fold_left] in Hrun.
    destruct (absorption_line_step simpson wavelengths flux st0 (name, rest)) as [st1|] eqn:Hs.
    + apply (IH st1); [intros x Hx; apply Hincl; by right | | exact Hrun].
      apply (lines_inv_step st0 st1 name rest); [done | apply Hincl; by left | done].
    + by rewrite absorption_loop_none in Hrun.
Qed.
End ReportLoop.

(** C10.  After every run of the absorption-line loop of
    [generate_spectral_report], every dict stored in
    [report['absorption_lines']] has a [redshift] key equal to
    [(observed_center - rest_wavelength) / rest_wavelength] for a line of
    [lines_dict] with that name: the dict is stored first and mutated
    afterwards, and the report sees the mutation through the shared
    reference. *)
Theorem absorption_lines_have_redshift (simpson : list Q -> list Q -> Q)
    (wavelengths flux : list Q) (lines_dict : list (string * Q)) (st : report_state) :
  absorption_line_loop simpson wavelengths flux lines_dict = Some st ->
  forall name m, absorption_lines_view st !! name = Some m ->
    exists rest, In (name, rest) lines_dict /\
      redshift m = Some (calculate_redshift (observed_center m) rest).
Proof.
  intros Hrun name m Hm.
  destruct (lines_inv_loop simpson wavelengths flux lines_dict lines_dict
              initial_report_state st) as [_ Habs];
    [done | apply lines_inv_initial | exact Hrun |].
  unfold absorption_lines_view in Hm. rewrite lookup_omap in Hm.
  destruct (absorption_lines st !! name) as [l|] eqn:Hl; [|discriminate].
  simpl in Hm. destruct (Habs name l Hl) as [_ (rest & m' & Hin & Hm' & Hz)].
  rewrite Hm in Hm'. injection Hm' as <-. by exists rest.
Qed.

Lemma absorption_lines_have_redshift_witness :
  exists st m,
    absorption_line_loop (fun _ _ => 0%Q) dip_wl dip_flux [("Mg I 5172", 5%Q); ("Far", 100%Q)]
      = Some st /\
    absorption_lines_view st !! "Mg I 5172" = Some m /\
    exists rest, In ("Mg I 5172", rest) [("Mg I 5172", 5%Q); ("Far", 100%Q)] /\
      redshift m = Some (calculate_redshift (observed_center m) rest).
Proof.
  eexists. eexists. split; [reflexivity|]. split; [reflexivity|].
  eapply (absorption_lines_have_redshift (fun _ _ => 0%Q) dip_wl dip_flux
            [("Mg I 5172", 5%Q); ("Far", 100%Q)]); reflexivity.
Defined.

(** ** The right-hand point of the FWHM is the minimum itself *)

Lemma argmin_aux_spec (xs : list Q) (i best : nat) (bv : Q) :
  (argmin_aux xs i best bv = best /\ Forall (fun x => bv <= x)%Q xs) \/
  (exists k, k < length xs /\ argmin_aux xs i best bv = i + k /\
     (nth k xs 0 < bv)%Q /\ Forall (fun x => nth k xs 0 <= x)%Q xs).
Proof.
  revert i best bv. induction xs as [|x xs IH]; intros i best bv; simpl.
  - left. split; [done | constructor].
  - destruct (qltb x bv) eqn:Hx.
    + apply qltb_spec in Hx.
      destruct (IH (S i) i x) as [[-> Hall] | (k & Hk & -> & Hlt & Hall)].
      * right. exists 0. split; [lia|]. split; [lia|]. simpl. split; [done|].
        constructor; [apply Qle_refl | done].
      * right. exists (S k). split; [lia|]. split; [lia|]. simpl.
        split; [apply (Qlt_trans _ x); done|].
        constructor; [apply Qlt_le_weak; done | done].
    + assert (Hge : (bv <= x)%Q).
      { apply Qnot_lt_le. intros Hlt. apply qltb_spec in Hlt. congruence. }
      destruct (IH (S i) best bv) as [[-> Hall] | (k & Hk & -> & Hlt & Hall)].
      * left. split; [done|]. by constructor.
      * right. exists (S k). split; [lia|]. split; [lia|]. simpl. split; [done|].
        constructor; [|done]. apply Qlt_le_weak. apply (Qlt_le_trans _ bv); done.
Qed.

Lemma argmin_spec (xs : list Q) :
  xs <> [] ->
  argmin xs < length xs /\ Forall (fun x => nth (argmin xs) xs 0 <= x)%Q xs.
Proof.
  destruct xs as [|x xs]; [done|]. intros _. unfold argmin.
  destruct (argmin_aux_spec xs 1 0 x) as [[-> Hall] | (k & Hk & -> & Hlt & Hall)].
  - simpl. split; [lia|]. constructor; [apply Qle_refl | done].
  - simpl. split; [lia|]. constructor; [apply Qlt_le_weak; done | done].
Qed.

Lemma insert_Q_perm (x : Q) (l : list Q) : Permutation (x :: l) (insert_Q x l).
Proof.
  induction l as [|y l IH]; simpl; [done|].
  destruct (Qle_bool x y); [done|].
  rewrite perm_swap. by constructor.
Qed.

Lemma sort_Q_perm (l : list Q) : Permutation l (sort_Q l).
Proof.
  induction l as [|x l IH]; simpl; [done|].
  rewrite <- insert_Q_perm. by constructor.
Qed.

(** A median of a non-empty list is at least any lower bound of it. *)
Lemma median_lower_bound (c : Q) (xs : list Q) :
  xs <> [] -> Forall (fun x => c <= x)%Q xs -> (c <= median xs)%Q.
Proof.
  intros Hne Hall. unfold median.
  assert (Hp := sort_Q_perm xs).
  assert (Hlen : length (sort_Q xs) = length xs) by (symmetry; by apply Permutation_length).
  assert (Hn : 0 < length xs) by (destruct xs; [done | simpl; lia]).
  assert (Hin : forall k, k < length xs -> (c <= nth k (sort_Q xs) 0)%Q).
  { intros k Hk. rewrite List.Forall_forall in Hall. apply Hall.
    apply (Permutation_in _ (Permutation_sym Hp)). apply nth_In. lia. }
  rewrite Hlen. destruct (Nat.even (length xs)) eqn:He.
  - apply Nat.even_spec in He. destruct He as [h Hh].
    assert (H1 := Hin (length xs / 2 - 1)). assert (H2 := Hin (length xs / 2)).
    assert (Hd : length xs / 2 = h) by (rewrite Hh, Nat.mul_comm, Nat.div_mul; lia).
    rewrite Hd in H1, H2 |- *.
    assert (Hh1 : h - 1 < length xs) by (clear -Hh Hn; lia).
    assert (Hh2 : h < length xs) by (clear -Hh Hn; lia).
    specialize (H1 Hh1). specialize (H2 Hh2).
    set (a := nth (h - 1) (sort_Q xs) 0%Q) in *. set (b := nth h (sort_Q xs) 0%Q) in *.
    clearbody a b. clear -H1 H2. apply Qle_shift_div_l; [reflexivity | lra].
  - apply Hin. apply Nat.Div0.div_lt_upper_bound. lia.
Qed.

Lemma in_firstn_in {X : Type} (x : X) (n : nat) (l : list X) : In x (firstn n l) -> In x l.
Proof. intros H. rewrite <- (firstn_skipn n l). apply in_or_app. by left. Qed.

Lemma in_skipn_in {X : Type} (x : X) (n : nat) (l : list X) : In x (skipn n l) -> In x l.
Proof. intros H. rewrite <- (firstn_skipn n l). apply in_or_app. by right. Qed.

Lemma skipn_nth_cons (k : nat) (l : list Q) :
  k < length l -> skipn k l = nth k l 0%Q :: skipn (S k) l.
Proof.
  revert l. induction k as [|k IH]; intros [|x l] Hk; simpl in *; try lia; [done|].
  apply IH. lia.
Qed.

(* ================================================================== *)
(** * Further properties of the code                                    *)
(* ================================================================== *)

(** ** [estimate_temperature] *)

(** A larger H-beta equivalent width never gives a hotter estimate; a NaN
    width fails every comparison and falls into the coldest class. *)
Theorem estimate_temperature_antitone (a b : Q) :
  (a <= b)%Q ->
  (snd (estimate_temperature (Fin b)) <= snd (estimate_temperature (Fin a)))%Z /\
  estimate_temperature NaN = ("Fría (<6000 K)", 5500%Z).
Proof.
  intros Hab. split; [|reflexivity].
  unfold estimate_temperature, flt.
  destruct (qltb b 2) eqn:Hb2; destruct (qltb a 2) eqn:Ha2;
  destruct (qltb b 4) eqn:Hb4; destruct (qltb a 4) eqn:Ha4;
  destruct (qltb b 6) eqn:Hb6; destruct (qltb a 6) eqn:Ha6; simpl; try lia;
  repeat match goal with
  | H : qltb _ _ = true |- _ => apply qltb_spec in H
  | H : qltb ?x ?y = false |- _ =>
      let H' := fresh in
      assert (H' : ~ (x < y)%Q) by (intros H'; apply qltb_spec in H'; congruence);
      apply Qnot_lt_le in H'; clear H
  end; lra.
Qed.

Lemma estimate_temperature_antitone_witness :
  (3 <= 5)%Q /\
  ((snd (estimate_temperature (Fin 5)) <= snd (estimate_temperature (Fin 3)))%Z /\
   estimate_temperature NaN = ("Fría (<6000 K)", 5500%Z)).
Proof.
  assert (H : (3 <= 5)%Q) by (unfold Qle; simpl; lia).
  split; [exact H | apply (estimate_temperature_antitone 3 5); exact H].
Defined.

(** ** [calculate_snr]: edge cases *)

(** [calculate_snr] raises [ZeroDivisionError] for [window = 0]; it
    returns 0 when the window is negative or longer than the spectrum,
    since there is then no segment at all. *)
Theorem calculate_snr_no_segment (sqrt : Q -> Q) (flux : list Q) (window : Z) :
  calculate_snr sqrt flux 0 = None /\
  ((window < 0)%Z \/ (0 < window /\ Z.of_nat (length flux) < window)%Z ->
   calculate_snr sqrt flux window = Some 0%Q).
Proof.
  split; [reflexivity|]. intros Hw. unfold calculate_snr.
  assert (Hn : (Z.of_nat (length flux) / window <= 0)%Z).
  { destruct Hw as [Hneg | [Hpos Hlt]].
    - assert (Hm := Z.mod_neg_bound (Z.of_nat (length flux)) window Hneg).
      assert (Hd := Z.div_mod (Z.of_nat (length flux)) window ltac:(lia)).
      set (q := (Z.of_nat (length flux) / window)%Z) in *.
      set (r := (Z.of_nat (length flux) mod window)%Z) in *. nia.
    - rewrite Z.div_small by lia. lia. }
  destruct (window =? 0)%Z eqn:H0; [apply Z.eqb_eq in H0; lia|].
  replace (Z.to_nat (Z.of_nat (length flux) / window)) with 0 by lia.
  reflexivity.
Qed.

Lemma calculate_snr_no_segment_witness :
  calculate_snr (fun q => q) [1; 2; 3]%Q 0 = None /\
  calculate_snr (fun q => q) [1; 2; 3]%Q 100 = Some 0%Q.
Proof.
  split; [apply (calculate_snr_no_segment (fun q => q) [1; 2; 3]%Q 100)|].
  apply (calculate_snr_no_segment (fun q => q) [1; 2; 3]%Q 100).
  right. split; [lia | simpl; lia].
Defined.

(** ** The window handed to [savgol_filter] *)

Lemma odd_lor_1 (x : Z) : Z.odd (Z.lor x 1) = true.
Proof. rewrite <- Z.bit0_odd, Z.lor_spec. apply orb_true_r. Qed.

Lemma odd_max_3 (x : Z) : Z.odd x = true -> Z.odd (Z.max 3 x) = true.
Proof. intros Hx. destruct (Z.max_spec 3 x) as [[_ ->] | [_ ->]]; done. Qed.

Lemma shrink_window_odd (len : nat) : Z.odd (shrink_window len) = true.
Proof.
  unfold shrink_window. apply odd_max_3.
  destruct (Nat.Even_or_Odd len) as [[h ->] | [h ->]].
  - replace (Nat.even (2 * h)) with true by (symmetry; apply Nat.even_spec; by exists h).
    replace (Z.of_nat (2 * h) - 1)%Z with (2 * (Z.of_nat h - 1) + 1)%Z by lia.
    apply Z.odd_odd.
  - replace (Nat.even (2 * h + 1)) with false.
    + replace (Z.of_nat (2 * h + 1)) with (2 * Z.of_nat h + 1)%Z by lia. apply Z.odd_odd.
    + symmetry. apply Bool.not_true_iff_false. intros He. apply Nat.even_spec in He.
      destruct He as [k Hk]. lia.
Qed.

Lemma shrink_window_bounds (len : nat) :
  (3 <= shrink_window len)%Z /\ (3 <= len -> (shrink_window len <= Z.of_nat len)%Z).
Proof. unfold shrink_window. destruct (Nat.even len); lia. Qed.

(** The window passed to [savgol_filter] is at least 3 and larger than
    the polynomial order; it is odd whenever the order is even (an odd
    order can give the even window [poly + 3]); and it fits in the data
    whenever [len(y) >= 3] and [poly + 3 <= len(y)]. *)
Theorem savgol_window_bounds (window poly : Z) (len : nat) :
  (3 <= savgol_window window poly len)%Z /\
  (poly < savgol_window window poly len)%Z /\
  (Z.even poly = true -> Z.odd (savgol_window window poly len) = true) /\
  (3 <= len -> (poly + 3 <= Z.of_nat len)%Z -> (savgol_window window poly len <= Z.of_nat len)%Z).
Proof.
  unfold savgol_window.
  set (w1 := Z.max 3 (Z.lor window 1)).
  assert (Hw1o : Z.odd w1 = true) by apply odd_max_3, odd_lor_1.
  assert (Hw13 : (3 <= w1)%Z) by lia.
  set (w2 := if (Z.of_nat len <? w1)%Z then shrink_window len else w1).
  assert (Hw2o : Z.odd w2 = true) by (subst w2; destruct (_ <? _)%Z; [apply shrink_window_odd | done]).
  assert (Hw23 : (3 <= w2)%Z) by (subst w2; destruct (_ <? _)%Z; [apply shrink_window_bounds | done]).
  assert (Hw2l : 3 <= len -> (w2 <= Z.of_nat len)%Z).
  { intros H3. subst w2. destruct (Z.of_nat len <? w1)%Z eqn:E.
    - apply shrink_window_bounds. lia.
    - apply Z.ltb_ge in E. lia. }
  clearbody w1 w2.
  destruct (w2 <? poly + 2)%Z eqn:E; [apply Z.ltb_lt in E | apply Z.ltb_ge in E].
  - split; [lia|]. split; [lia|]. split; [|lia].
    intros He. rewrite Z.odd_add, (Zodd_even_bool poly), He. reflexivity.
  - split; [lia|]. split; [lia|]. split; [done|]. intros H3 _. by apply Hw2l.
Qed.

Lemma savgol_window_bounds_witness :
  (Z.even 2 = true -> Z.odd (savgol_window 61 2 40) = true) /\
  (3 <= 40 -> (2 + 3 <= Z.of_nat 40)%Z -> (savgol_window 61 2 40 <= Z.of_nat 40)%Z) /\
  Z.odd (savgol_window 61 2 40) = true /\ (savgol_window 61 2 40 <= Z.of_nat 40)%Z.
Proof.
  destruct (savgol_window_bounds 61 2 40) as (_ & _ & Ho & Hl).
  split; [exact Ho|]. split; [exact Hl|].
  split; [apply Ho; reflexivity | apply Hl; simpl; lia].
Defined.

(** ** [validate_and_load_fits]: completing the primary header *)

Lemma fix_header_fold (keys : list string) (h0 : gmap string hval) (miss0 : list string) :
  List.NoDup keys -> Forall (fun k => default_card k <> None) keys ->
  let '(h, miss) := fold_left fix_header_step keys (h0, miss0) in
  miss = miss0 ++ List.filter (key_absent h0) keys /\
  (forall k v, h0 !! k = Some v -> h !! k = Some v) /\
  (forall k, In k keys -> h0 !! k = None -> h !! k = default_card k) /\
  (forall k, ~ In k keys -> h !! k = h0 !! k).
Proof.
  revert h0 miss0. induction keys as [|k keys IH]; intros h0 miss0 Hnd Hdef.
  - simpl. rewrite app_nil_r. repeat split; auto. intros k' [].
  - apply List.NoDup_cons_iff in Hnd as [Hk Hnd]. apply Forall_cons in Hdef as [Hdk Hdef].
    cbn [fold_left]. unfold fix_header_step at 2.
    destruct (h0 !! k) as [v0|] eqn:Hh0.
    + specialize (IH h0 miss0 Hnd Hdef).
      destruct (fold_left fix_header_step keys (h0, miss0)) as [h miss].
      destruct IH as (Hm & Hp & Hd & Ho).
      split; [simpl; unfold key_absent at 1; by rewrite Hh0|].
      split; [done|]. split.
      * intros k' [<- | Hin] Hn; [congruence | by apply Hd].
      * intros k' Hnin. apply Ho. intros Hin. apply Hnin. by right.
    + destruct (default_card k) as [dv|] eqn:Hdv; [|done].
      specialize (IH (<[k := dv]> h0) (miss0 ++ [k]) Hnd Hdef).
      destruct (fold_left fix_header_step keys (<[k := dv]> h0, miss0 ++ [k])) as [h miss].
      destruct IH as (Hm & Hp & Hd & Ho).
      assert (Hsame : forall k', In k' keys -> (<[k := dv]> h0) !! k' = h0 !! k').
      { intros k' Hin. rewrite lookup_insert_ne; [done|]. intros <-. contradiction. }
      split.
      * rewrite Hm. simpl. unfold key_absent at 2. rewrite Hh0, <- app_assoc. simpl.
        f_equal. f_equal. apply filter_ext_in. intros k' Hin. unfold key_absent.
        by rewrite Hsame.
      * split.
        -- intros k' v Hv. apply Hp. rewrite lookup_insert_ne; [done|]. intros <-. congruence.
        -- split.
           ++ intros k' [<- | Hin] Hn.
              ** rewrite Ho by done. by rewrite lookup_insert_eq.
              ** apply Hd; [done|]. by rewrite Hsame.
           ++ intros k' Hnin. rewrite Ho.
              ** apply lookup_insert_ne. intros <-. apply Hnin. by left.
              ** intros Hin. apply Hnin. by right.
Qed.

(** The loop over [REQUIRED_KEYS] lists exactly the required keys absent
    from the header, in the order of [REQUIRED_KEYS]; it sets each of them
    to its default ([SIMPLE = True], [BITPIX = 16], [NAXIS = 0],
    [EXTEND = True]) and leaves every card already present, and every
    other key, unchanged. *)
Theorem fix_header_completes (header : gmap string hval) :
  let '(h, missing_keys) := fix_header header in
  missing_keys = List.filter (key_absent header) REQUIRED_KEYS /\
  (forall k v, header !! k = Some v -> h !! k = Some v) /\
  h !! "SIMPLE" = Some (match header !! "SIMPLE" with Some v => v | None => HBool true end) /\
  h !! "BITPIX" = Some (match header !! "BITPIX" with Some v => v | None => HInt 16 end) /\
  h !! "NAXIS" = Some (match header !! "NAXIS" with Some v => v | None => HInt 0 end) /\
  h !! "EXTEND" = Some (match header !! "EXTEND" with Some v => v | None => HBool true end) /\
  (forall k, ~ In k REQUIRED_KEYS -> h !! k = header !! k).
Proof.
  unfold fix_header.
  assert (Hf := fix_header_fold REQUIRED_KEYS header []).
  destruct (fold_left fix_header_step REQUIRED_KEYS (header, [])) as [h miss].
  destruct Hf as (Hm & Hp & Hd & Ho);
    [unfold REQUIRED_KEYS; repeat constructor; simpl; intuition discriminate
    | unfold REQUIRED_KEYS; repeat constructor; discriminate |].
  assert (Hkey : forall k dv, In k REQUIRED_KEYS -> default_card k = Some dv ->
             h !! k = Some (match header !! k with Some v => v | None => dv end)).
  { intros k dv Hin Hdv. destruct (header !! k) eqn:E; [by apply Hp|].
    rewrite <- Hdv. by apply Hd. }
  split; [done|]. split; [done|].
  split; [apply Hkey; [simpl; tauto | reflexivity]|].
  split; [apply Hkey; [simpl; tauto | reflexivity]|].
  split; [apply Hkey; [simpl; tauto | reflexivity]|].
  split; [apply Hkey; [simpl; tauto | reflexivity]|].
  done.
Qed.

(** ** [load_spectrum_universal]: the wavelength axis of a 1-d image *)

Lemma Q_of_nat_succ (i : nat) : (Q_of_nat (S i) == Q_of_nat i + 1)%Q.
Proof. unfold Q_of_nat. rewrite Nat2Z.inj_succ, <- Z.add_1_r, inject_Z_plus. reflexivity. Qed.

Lemma nth_map_seq (g : nat -> Q) (n i : nat) :
  i < n -> nth i (map g (seq 0 n)) 0%Q = g i.
Proof.
  intros Hi. rewrite (nth_indep _ _ (g 0)) by (rewrite length_map, length_seq; lia).
  rewrite map_nth, seq_nth by lia. reflexivity.
Qed.

(** With [CRVAL1] and [CDELT1] in the header, the axis has one wavelength
    per pixel, it is non-decreasing when [CDELT1 > 0], and the pixel at
    the 1-based position [CRPIX1] (1 when absent) has wavelength
    [CRVAL1] (there the offset [i - crpix + 1] is exactly 0). *)
Theorem image_wavelengths_linear (crval cdelt : Q) (crpix : option Q) (n_pixels : nat) :
  let ws := image_wavelengths (Some crval) (Some cdelt) crpix n_pixels in
  let c := match crpix with Some c => c | None => 1%Q end in
  length ws = n_pixels /\
  ((0 < cdelt)%Q -> forall i, S i < n_pixels -> (nth i ws 0 <= nth (S i) ws 0)%Q) /\
  (forall i, i < n_pixels -> (Q_of_nat (S i) == c)%Q -> (nth i ws 0 == crval)%Q).
Proof.
  cbv zeta. unfold image_wavelengths.
  set (c := match crpix with Some c => c | None => 1%Q end).
  split; [by rewrite length_map, length_seq|]. split.
  - intros Hd i Hi. rewrite !nth_map_seq by lia.
    assert (E : (crval + (Q_of_nat (S i) - c + 1) * cdelt ==
                 (crval + (Q_of_nat i - c + 1) * cdelt) + cdelt)%Q)
      by (rewrite Q_of_nat_succ; ring).
    rewrite E. lra.
  - intros i Hi Hc. rewrite nth_map_seq by done. rewrite Q_of_nat_succ in Hc.
    rewrite <- Hc. ring.
Qed.

Lemma image_wavelengths_linear_witness :
  (nth 1 (image_wavelengths (Some 4000%Q) (Some (1 # 2)) (Some 2%Q) 10) 0 == 4000)%Q /\
  (nth 3 (image_wavelengths (Some 4000%Q) (Some (1 # 2)) (Some 2%Q) 10) 0 <=
   nth 4 (image_wavelengths (Some 4000%Q) (Some (1 # 2)) (Some 2%Q) 10) 0)%Q.
Proof.
  split.
  - apply (proj2 (proj2 (image_wavelengths_linear 4000 (1 # 2) (Some 2%Q) 10)) 1);
      [lia | reflexivity].
  - apply (proj1 (proj2 (image_wavelengths_linear 4000 (1 # 2) (Some 2%Q) 10)));
      [reflexivity | lia].
Defined.

(** ** The metallicity estimate of the report *)

Lemma apply_mask_all_false {X : Type} (m : list bool) (xs : list X) :
  length m = length xs -> Forall (fun b => b = false) m -> apply_mask m xs = Some [].
Proof.
  intros Hl Hf. unfold apply_mask. rewrite Hl, Nat.eqb_refl. f_equal.
  revert xs Hl. induction m as [|b m IH]; intros [|x xs] Hl; simpl in *; try done.
  apply Forall_cons in Hf as [-> Hf]. rewrite filter_cons_False by (simpl; congruence).
  apply IH; [done | lia].
Qed.

Lemma window_mask_empty (wavelengths : list Q) (c window : Q) :
  Forall (fun w => ~ (c - window <= w <= c + window)%Q) wavelengths ->
  Forall (fun b => b = false) (window_mask wavelengths c window).
Proof.
  intros H. unfold window_mask. apply Forall_map. eapply Forall_impl; [exact H|].
  intros w Hw. simpl. destruct (Qle_bool (c - window) w) eqn:E1; [|done].
  destruct (Qle_bool w (c + window)) eqn:E2; [|done].
  apply Qle_bool_iff in E1, E2. simpl in Hw. exfalso. by apply Hw.
Qed.

Lemma window_mask_length (wavelengths : list Q) (c window : Q) :
  length (window_mask wavelengths c window) = length wavelengths.
Proof. apply length_map. Qed.

(** If the spectrum has no sample within 20 Å of the Mg line (5175 Å) or
    of the Fe line (5270 Å), [np.mean] of an empty selection is NaN, so the
    Mg/Fe ratio is NaN; NaN fails both comparisons and the report says
    "Alta metalicidad". *)
Theorem report_metallicity_no_window (wavelengths : list Q) (flux : list fl) :
  length flux = length wavelengths ->
  Forall (fun w => ~ (5175 - 20 <= w <= 5175 + 20)%Q) wavelengths \/
  Forall (fun w => ~ (5270 - 20 <= w <= 5270 + 20)%Q) wavelengths ->
  report_metallicity wavelengths flux = Some (NaN, "Alta metalicidad").
Proof.
  intros Hl Hout. unfold report_metallicity, calculate_mg_fe_index.
  assert (Hok : forall c, exists r, apply_mask (window_mask wavelengths c 20) flux = Some r).
  { intros c. unfold apply_mask. rewrite window_mask_length, Hl, Nat.eqb_refl. by eexists. }
  destruct Hout as [Hout | Hout].
  - rewrite (apply_mask_all_false _ _ ltac:(by rewrite window_mask_length)
              (window_mask_empty _ _ _ Hout)).
    destruct (Hok 5270%Q) as [r ->]. reflexivity.
  - destruct (Hok 5175%Q) as [r ->].
    rewrite (apply_mask_all_false _ _ ltac:(by rewrite window_mask_length)
              (window_mask_empty _ _ _ Hout)).
    change (fmean []) with NaN. destruct (fmean r); reflexivity.
Qed.

Lemma report_metallicity_no_window_witness :
  report_metallicity [4000; 4001]%Q [Fin 1; Fin 2] = Some (NaN, "Alta metalicidad").
Proof.
  apply report_metallicity_no_window; [reflexivity|]. left.
  repeat constructor; unfold Qle; simpl; lia.
Defined.

(** ** [measure_line_parameters]: the window, the centre, depth and FWHM *)

Lemma apply_mask_self_filter (P : Q -> bool) (xs : list Q) :
  apply_mask (map P xs) xs = Some (List.filter P xs).
Proof.
  unfold apply_mask. rewrite length_map, Nat.eqb_refl. f_equal.
  induction xs as [|x xs IH]; simpl; [done|].
  destruct (P x) eqn:E.
  - rewrite filter_cons_True by done. simpl. by rewrite IH.
  - rewrite filter_cons_False by (simpl; congruence). done.
Qed.

Lemma apply_mask_in {X : Type} (m : list bool) (xs ys : list X) (x : X) :
  apply_mask m xs = Some ys -> In x ys -> In x xs.
Proof.
  unfold apply_mask. destruct (Nat.eqb _ _); [|discriminate]. intros Hs. injection Hs as <-.
  revert xs. induction m as [|b m IH]; intros [|y xs]; simpl; try done.
  destruct (decide (b = true)).
  - rewrite filter_cons_True by done. simpl. intros [-> | H]; [by left | right; by apply IH].
  - rewrite filter_cons_False by done. intros H. right. by apply IH.
Qed.

Lemma apply_mask_count {X : Type} (m : list bool) (xs ys : list X) :
  apply_mask m xs = Some ys -> length ys = length (List.filter (fun b => b) m).
Proof.
  unfold apply_mask. destruct (Nat.eqb _ _) eqn:E; [|discriminate].
  apply Nat.eqb_eq in E. intros Hs. injection Hs as <-.
  revert xs E. induction m as [|b m IH]; intros [|y xs] E; simpl in *; try done.
  destruct b.
  - rewrite filter_cons_True by done. simpl. f_equal. apply IH. lia.
  - rewrite filter_cons_False by (simpl; congruence). apply IH. lia.
Qed.

Lemma apply_mask_some {X : Type} (m : list bool) (xs : list X) :
  length m = length xs -> exists ys, apply_mask m xs = Some ys.
Proof. intros Hl. unfold apply_mask. rewrite Hl, Nat.eqb_refl. by eexists. Qed.

Lemma where_le_from_range (i : nat) (xs : list Q) (h : Q) (l : nat) :
  In l (where_le_from i xs h) -> i <= l < i + length xs.
Proof.
  revert i. induction xs as [|x xs IH]; intros i; simpl; [done|].
  destruct (Qle_bool x h).
  - intros [<- | Hin]; [lia|]. apply IH in Hin. lia.
  - intros Hin. apply IH in Hin. lia.
Qed.

(** What a successful measurement is made of: the window is the
    subsequence of [wavelengths] inside [line_center +- window] and
    [flux_window] the matching fluxes; the centre is the wavelength at the
    first flux minimum; the FWHM, when defined, runs from a window sample
    left of the minimum to the minimum itself. *)
Lemma measure_line_parameters_shape (simpson : list Q -> list Q -> Q)
    (wavelengths flux : list Q) (line_center window : Q) (m : line_measurement) :
  measure_line_parameters simpson wavelengths flux line_center window = Some (Some m) ->
  exists wl_window flux_window,
    wl_window = List.filter (in_window line_center window) wavelengths /\
    (forall x, In x flux_window -> In x flux) /\
    length flux_window = length wl_window /\ flux_window <> [] /\
    observed_center m = nth (argmin flux_window) wl_window 0%Q /\
    continuum_level m
      = ((median (firstn 5 flux_window) + median (last5 flux_window)) / 2)%Q /\
    depth m = (1 - nth (argmin flux_window) flux_window 0%Q / continuum_level m)%Q /\
    (fwhm m = None \/
     exists l, l < argmin flux_window /\
       fwhm m = Some (nth (argmin flux_window) wl_window 0%Q - nth l wl_window 0%Q)%Q).
Proof.
  unfold measure_line_parameters.
  change (map _ wavelengths) with (map (in_window line_center window) wavelengths).
  rewrite apply_mask_self_filter.
  destruct (apply_mask (map (in_window line_center window) wavelengths) flux) as [fw|] eqn:Hfw;
    [|discriminate].
  destruct (Nat.eqb (length fw) 0) eqn:Hz; [discriminate|].
  intros Hm. injection Hm as <-.
  assert (Hne : fw <> []) by (intros ->; discriminate Hz).
  assert (Hlen : length fw = length (List.filter (in_window line_center window) wavelengths)).
  { rewrite (apply_mask_count _ _ _ Hfw).
    rewrite <- (apply_mask_count _ _ _ (apply_mask_self_filter (in_window line_center window) wavelengths)).
    reflexivity. }
  exists (List.filter (in_window line_center window) wavelengths), fw. simpl.
  split; [done|]. split; [intros x; apply apply_mask_in with (m := map (in_window line_center window) wavelengths); exact Hfw|].
  split; [done|]. split; [done|]. split; [done|]. split; [done|]. split; [done|].
  destruct (argmin_spec fw Hne) as [Hidx Hmin].
  set (idx := argmin fw) in *. set (mn := nth idx fw 0%Q) in *.
  set (wlw := List.filter (in_window line_center window) wavelengths) in *.
  assert (Hsub : forall sub, sub <> [] -> (forall x, In x sub -> In x fw) -> (mn <= median sub)%Q).
  { intros sub Hs Hi. apply median_lower_bound; [done|].
    apply List.Forall_forall. intros x Hx. rewrite List.Forall_forall in Hmin. by apply Hmin, Hi. }
  assert (Hl : (mn <= median (firstn 5 fw))%Q).
  { apply Hsub; [destruct fw; done | intros x; apply in_firstn_in]. }
  assert (Hr : (mn <= median (last5 fw))%Q).
  { apply Hsub; [| intros x; apply in_skipn_in].
    unfold last5. intros E. apply (f_equal (@length Q)) in E.
    rewrite length_skipn in E. simpl in E. apply Nat.eqb_neq in Hz. lia. }
  rewrite (skipn_nth_cons idx fw Hidx). fold mn.
  assert (Hh : Qle_bool mn (((median (firstn 5 fw) + median (last5 fw)) / 2 + mn) / 2)%Q = true).
  { apply Qle_bool_iff. set (a := median (firstn 5 fw)) in *. set (b := median (last5 fw)) in *.
    clearbody a b mn. clear -Hl Hr.
    apply Qle_shift_div_l; [reflexivity|].
    assert (Hc : (mn <= (a + b) / 2)%Q) by (apply Qle_shift_div_l; [reflexivity | lra]).
    set (c := ((a + b) / 2)%Q) in *. clearbody c. lra. }
  assert (Hw : forall t, where_le (mn :: t) (((median (firstn 5 fw) + median (last5 fw)) / 2 + mn) / 2)%Q
                = 0 :: where_le_from 1 t (((median (firstn 5 fw) + median (last5 fw)) / 2 + mn) / 2)%Q).
  { intros t. unfold where_le. simpl. by rewrite Hh. }
  rewrite Hw.
  destruct (List.rev (where_le (firstn idx fw) _)) as [|l ls] eqn:Hrev; [by left|].
  right. exists l. split.
  - assert (Hin : In l (where_le (firstn idx fw) (((median (firstn 5 fw) + median (last5 fw)) / 2 + mn) / 2)%Q)).
    { apply in_rev. rewrite Hrev. by left. }
    apply where_le_from_range in Hin. rewrite length_firstn in Hin. lia.
  - by rewrite Nat.add_0_r.
Qed.

(** The outcome of [measure_line_parameters]: it raises ([IndexError] of
    [flux[mask]]) when [flux] and [wavelengths] differ in length, returns
    [None] exactly when no wavelength lies in [[line_center - window,
    line_center + window]], and returns a measurement otherwise. *)
Theorem measure_line_parameters_outcome (simpson : list Q -> list Q -> Q)
    (wavelengths flux : list Q) (line_center window : Q) :
  (length flux <> length wavelengths ->
   measure_line_parameters simpson wavelengths flux line_center window = None) /\
  (length flux = length wavelengths ->
   (measure_line_parameters simpson wavelengths flux line_center window = Some None <->
    Forall (fun w => ~ (line_center - window <= w <= line_center + window)%Q) wavelengths) /\
   measure_line_parameters simpson wavelengths flux line_center window <> None).
Proof.
  unfold measure_line_parameters.
  change (map _ wavelengths) with (map (in_window line_center window) wavelengths).
  rewrite apply_mask_self_filter.
  split.
  - intros Hne. unfold apply_mask at 1. rewrite length_map.
    destruct (Nat.eqb (length wavelengths) (length flux)) eqn:E; [|done].
    apply Nat.eqb_eq in E. congruence.
  - intros Heq. destruct (apply_mask_some (map (in_window line_center window) wavelengths) flux)
      as [fw Hfw]; [by rewrite length_map|].
    rewrite Hfw.
    assert (Hcnt := apply_mask_count _ _ _ Hfw).
    assert (Hiff : length fw = 0 <->
              Forall (fun w => ~ (line_center - window <= w <= line_center + window)%Q) wavelengths).
    { rewrite Hcnt. clear. induction wavelengths as [|w ws IH]; simpl; [split; [constructor | done]|].
      unfold in_window at 1. destruct (Qle_bool (line_center - window) w) eqn:E1;
        destruct (Qle_bool w (line_center + window)) eqn:E2; simpl.
      - split; [lia|]. intros Hf. apply Forall_cons in Hf as [Hw _].
        apply Qle_bool_iff in E1, E2. tauto.
      - rewrite IH. split; intros H; [constructor; [|done] | apply Forall_cons in H; tauto].
        intros [_ H2]. apply Qle_bool_iff in H2. congruence.
      - rewrite IH. split; intros H; [constructor; [|done] | apply Forall_cons in H; tauto].
        intros [H1 _]. apply Qle_bool_iff in H1. congruence.
      - rewrite IH. split; intros H; [constructor; [|done] | apply Forall_cons in H; tauto].
        intros [H1 _]. apply Qle_bool_iff in H1. congruence. }
    split; [|by destruct (Nat.eqb (length fw) 0)].
    rewrite <- Hiff. destruct (Nat.eqb (length fw) 0) eqn:Ez.
    + apply Nat.eqb_eq in Ez. tauto.
    + apply Nat.eqb_neq in Ez. split; [discriminate | tauto].
Qed.

Lemma measure_line_parameters_outcome_witness :
  measure_line_parameters (fun _ _ => 0%Q) dip_wl [1; 1]%Q 5 10 = None /\
  measure_line_parameters (fun _ _ => 0%Q) dip_wl dip_flux 100 10 = Some None.
Proof.
  split.
  - apply (measure_line_parameters_outcome (fun _ _ => 0%Q) dip_wl [1; 1]%Q 5 10).
    discriminate.
  - apply (measure_line_parameters_outcome (fun _ _ => 0%Q) dip_wl dip_flux 100 10);
      [reflexivity|].
    repeat constructor; unfold Qle; simpl; lia.
Defined.

(** The observed centre is one of the input wavelengths, inside
    [[line_center - window, line_center + window]]. *)
Theorem measure_line_parameters_center_in_window (simpson : list Q -> list Q -> Q)
    (wavelengths flux : list Q) (line_center window : Q) (m : line_measurement) :
  measure_line_parameters simpson wavelengths flux line_center window = Some (Some m) ->
  In (observed_center m) wavelengths /\
  (line_center - window <= observed_center m <= line_center + window)%Q.
Proof.
  intros Hm.
  destruct (measure_line_parameters_shape simpson wavelengths flux line_center window m Hm)
    as (wlw & fw & -> & _ & Hlen & Hne & Hoc & _).
  destruct (argmin_spec fw Hne) as [Hidx _].
  assert (Hin : In (observed_center m) (List.filter (in_window line_center window) wavelengths)).
  { rewrite Hoc. apply nth_In. lia. }
  apply filter_In in Hin as [Hin Hp]. unfold in_window in Hp.
  apply andb_prop in Hp as [H1 H2]. apply Qle_bool_iff in H1, H2. tauto.
Qed.

Lemma measure_line_parameters_center_in_window_witness :
  exists m, measure_line_parameters (fun _ _ => 0%Q) dip_wl dip_flux 5 10 = Some (Some m) /\
    In (observed_center m) dip_wl /\ (5 - 10 <= observed_center m <= 5 + 10)%Q.
Proof.
  eexists. split; [reflexivity|].
  apply (measure_line_parameters_center_in_window (fun _ _ => 0%Q) dip_wl dip_flux 5 10).
  reflexivity.
Defined.

(** The continuum is never below the flux minimum, so for a positive
    continuum the depth is non-negative; with non-negative fluxes it is
    at most 1. *)
Theorem measure_line_parameters_depth_bounds (simpson : list Q -> list Q -> Q)
    (wavelengths flux : list Q) (line_center window : Q) (m : line_measurement) :
  measure_line_parameters simpson wavelengths flux line_center window = Some (Some m) ->
  (0 < continuum_level m)%Q ->
  (0 <= depth m)%Q /\ (Forall (fun f => 0 <= f)%Q flux -> (depth m <= 1)%Q).
Proof.
  intros Hm Hc.
  destruct (measure_line_parameters_shape simpson wavelengths flux line_center window m Hm)
    as (wlw & fw & _ & Hsub & _ & Hne & _ & Hcont & Hdepth & _).
  destruct (argmin_spec fw Hne) as [Hidx Hmin].
  set (mn := nth (argmin fw) fw 0%Q) in *.
  assert (Hl : (mn <= median (firstn 5 fw))%Q).
  { apply median_lower_bound; [destruct fw; done|].
    apply List.Forall_forall. intros x Hx. rewrite List.Forall_forall in Hmin.
    apply Hmin. by apply in_firstn_in in Hx. }
  assert (Hr : (mn <= median (last5 fw))%Q).
  { apply median_lower_bound.
    - unfold last5. intros E. apply (f_equal (@length Q)) in E.
      rewrite length_skipn in E. simpl in E. destruct fw; [done|]. simpl in E. lia.
    - apply List.Forall_forall. intros x Hx. rewrite List.Forall_forall in Hmin.
      apply Hmin. by apply in_skipn_in in Hx. }
  assert (Hmc : (mn <= continuum_level m)%Q).
  { rewrite Hcont. set (a := median (firstn 5 fw)) in *. set (b := median (last5 fw)) in *.
    clearbody a b mn. clear -Hl Hr. apply Qle_shift_div_l; [reflexivity | lra]. }
  rewrite Hdepth. set (c := continuum_level m) in *. clearbody c.
  assert (Hq : (mn / c <= 1)%Q) by (apply Qle_shift_div_r; [done | lra]).
  split; [lra|].
  intros Hpos. assert (H0 : (0 <= mn)%Q).
  { rewrite List.Forall_forall in Hpos. apply Hpos, Hsub. subst mn. apply nth_In. lia. }
  assert (Hq0 : (0 <= mn / c)%Q) by (apply Qle_shift_div_l; [done | lra]).
  lra.
Qed.

Lemma measure_line_parameters_depth_bounds_witness :
  exists m, measure_line_parameters (fun _ _ => 0%Q) dip_wl dip_flux 5 10 = Some (Some m) /\
    (0 < continuum_level m)%Q /\ (0 <= depth m)%Q /\ (depth m <= 1)%Q.
Proof.
  eexists. split; [reflexivity|].
  assert (Hc : (0 < continuum_level (match measure_line_parameters (fun _ _ => 0%Q) dip_wl dip_flux 5 10
                 with Some (Some m) => m | _ => {| observed_center := 0; equivalent_width := 0;
                 fwhm := None; depth := 0; continuum_level := 0; redshift := None |} end))%Q)
    by (vm_compute; reflexivity).
  split; [exact Hc|].
  destruct (measure_line_parameters_depth_bounds (fun _ _ => 0%Q) dip_wl dip_flux 5 10 _
              ltac:(reflexivity) Hc) as [H1 H2].
  split; [exact H1 | apply H2]. repeat constructor; unfold Qle; simpl; lia.
Defined.

Lemma strongly_sorted_filter (P : Q -> bool) (xs : list Q) :
  StronglySorted Qlt xs -> StronglySorted Qlt (List.filter P xs).
Proof.
  induction xs as [|x xs IH]; intros Hs; simpl; [constructor|].
  apply StronglySorted_inv in Hs as [Hs Hall].
  destruct (P x); [|by apply IH].
  constructor; [by apply IH|].
  rewrite List.Forall_forall in Hall |- *. intros y Hy. apply filter_In in Hy as [Hy _].
  by apply Hall.
Qed.

Lemma strongly_sorted_nth_lt (xs : list Q) (i j : nat) :
  StronglySorted Qlt xs -> i < j < length xs -> (nth i xs 0 < nth j xs 0)%Q.
Proof.
  revert i j. induction xs as [|a xs IH]; intros i j Hs Hij; simpl in *; [lia|].
  apply StronglySorted_inv in Hs as [Hs Hall].
  destruct i, j; try lia.
  - rewrite List.Forall_forall in Hall. apply Hall, nth_In. lia.
  - apply IH; [done | lia].
Qed.

Lemma strongly_sorted_nth_le (xs : list Q) (i j : nat) :
  StronglySorted Qlt xs -> i <= j < length xs -> (nth i xs 0 <= nth j xs 0)%Q.
Proof.
  intros Hs Hij. destruct (decide (i = j)) as [->|Hne]; [apply Qle_refl|].
  apply Qlt_le_weak, strongly_sorted_nth_lt; [done | lia].
Qed.

(** On a strictly increasing wavelength grid a defined FWHM is positive
    and at most [wl_window[-1] - wl_window[0]], the span of the
    wavelengths inside the line window: it runs from a window sample
    left of the minimum to the minimum itself. *)
Theorem measure_line_parameters_fwhm_bounds (simpson : list Q -> list Q -> Q)
    (wavelengths flux : list Q) (line_center window : Q) (m : line_measurement) (x : Q) :
  StronglySorted Qlt wavelengths ->
  measure_line_parameters simpson wavelengths flux line_center window = Some (Some m) ->
  fwhm m = Some x ->
  let wl_window := List.filter (in_window line_center window) wavelengths in
  (0 < x <= nth (length wl_window - 1) wl_window 0 - nth 0 wl_window 0)%Q.
Proof.
  intros Hs Hm Hx wl_window.
  destruct (measure_line_parameters_shape simpson wavelengths flux line_center window m Hm)
    as (wlw & fw & Hwlw & _ & Hlen & Hne & _ & _ & _ & Hf).
  destruct (argmin_spec fw Hne) as [Hidx _].
  destruct Hf as [Hn | (l & Hl & Hf)]; [congruence|].
  rewrite Hx in Hf. injection Hf as ->.
  assert (Hsw : StronglySorted Qlt wlw) by (rewrite Hwlw; by apply strongly_sorted_filter).
  subst wl_window. rewrite <- Hwlw.
  assert (Hlt := strongly_sorted_nth_lt wlw l (argmin fw) Hsw ltac:(lia)).
  assert (H1 := strongly_sorted_nth_le wlw 0 l Hsw ltac:(lia)).
  assert (H2 := strongly_sorted_nth_le wlw (argmin fw) (length wlw - 1) Hsw ltac:(lia)).
  split; lra.
Qed.

Lemma measure_line_parameters_fwhm_bounds_witness :
  exists m, measure_line_parameters (fun _ _ => 0%Q) dip_wl dip_flux 5 10 = Some (Some m) /\
    fwhm m = Some 1%Q /\ (0 < 1 <= 10 - 0)%Q.
Proof.
  eexists. split; [reflexivity|]. split; [reflexivity|].
  eapply (measure_line_parameters_fwhm_bounds (fun _ _ => 0%Q) dip_wl dip_flux 5 10 _ 1);
    [| reflexivity | reflexivity].
  unfold dip_wl. repeat constructor; unfold Qlt; simpl; lia.
Defined.

(** The right-hand point of the code's FWHM is the flux minimum itself:
    with [wl_window] the wavelengths inside the line window, in input
    order, the FWHM is either NaN or [wl_window[j] - wl_window[i]] where
    [j] is the position of the minimum ([observed_center = wl_window[j]])
    and [i] a position before it. *)
Theorem measure_line_parameters_fwhm_right_end (simpson : list Q -> list Q -> Q)
    (wavelengths flux : list Q) (line_center window : Q) (m : line_measurement) :
  measure_line_parameters simpson wavelengths flux line_center window = Some (Some m) ->
  let wl_window := List.filter (in_window line_center window) wavelengths in
  fwhm m = None \/
  exists i j, i < j < length wl_window /\
    observed_center m = nth j wl_window 0%Q /\
    fwhm m = Some (nth j wl_window 0 - nth i wl_window 0)%Q.
Proof.
  intros Hm wl_window.
  destruct (measure_line_parameters_shape simpson wavelengths flux line_center window m Hm)
    as (wlw & fw & Hwlw & _ & Hlen & Hne & Hoc & _ & _ & Hf).
  subst wl_window. rewrite <- Hwlw.
  destruct Hf as [Hn | (l & Hl & Hf)]; [by left|].
  destruct (argmin_spec fw Hne) as [Hidx _].
  right. exists l, (argmin fw). split; [lia|]. done.
Qed.

Lemma measure_line_parameters_fwhm_right_end_witness :
  exists m, measure_line_parameters (fun _ _ => 0%Q) dip_wl dip_flux 5 10 = Some (Some m) /\
    fwhm m = Some 1%Q /\
    (fwhm m = None \/
     exists i j, i < j < length (List.filter (in_window 5 10) dip_wl) /\
       observed_center m = nth j (List.filter (in_window 5 10) dip_wl) 0%Q /\
       fwhm m = Some (nth j (List.filter (in_window 5 10) dip_wl) 0 -
                      nth i (List.filter (in_window 5 10) dip_wl) 0)%Q).
Proof.
  eexists. split; [reflexivity|]. split; [reflexivity|].
  eapply (measure_line_parameters_fwhm_right_end (fun _ _ => 0%Q) dip_wl dip_flux 5 10).
  reflexivity.
Defined.

(** ** [valid_mask] and [rebin_spectrum] on the masked arrays *)

Lemma fisfinite_fin (x : fl) : fisfinite x = true <-> exists q, x = Fin q.
Proof. destruct x as [q| |b]; simpl; split; try done; try (by eexists); intros [r Hr]; discriminate. Qed.

Lemma masked_pairs (g : fl -> fl -> bool) (f i : list fl) :
  length f = length i ->
  map snd (filter (fun p => fst p = true) (zip (zip_with g f i) f))
    = map fst (List.filter (fun p => g (fst p) (snd p)) (zip f i)) /\
  map snd (filter (fun p => fst p = true) (zip (zip_with g f i) i))
    = map snd (List.filter (fun p => g (fst p) (snd p)) (zip f i)).
Proof.
  revert i. induction f as [|x f IH]; intros [|y i] Hl; simpl in *; try done.
  destruct (IH i ltac:(lia)) as [H1 H2].
  destruct (g x y) eqn:E.
  - rewrite !filter_cons_True by done. simpl. by rewrite H1, H2.
  - rewrite !filter_cons_False by (simpl; congruence). done.
Qed.

(** What [main] and [analyze_file] keep after [valid_mask]: finite flux
    values and finite, positive inverse variances, as many of each. *)
Lemma masked_flux_ivar_valid (flux ivar : list fl) (m : list bool) (flux' ivar' : list fl) :
  valid_mask flux ivar = Some m ->
  apply_mask m flux = Some flux' -> apply_mask m ivar = Some ivar' ->
  Forall (fun x => fisfinite x = true) flux' /\ Forall pos_fin ivar' /\
  length flux' = length ivar'.
Proof.
  intros Hm Hf Hi.
  unfold apply_mask in Hf, Hi.
  destruct (Nat.eqb (length m) (length flux)) eqn:E1; [|discriminate].
  destruct (Nat.eqb (length m) (length ivar)) eqn:E2; [|discriminate].
  apply Nat.eqb_eq in E1, E2.
  assert (Hl : length flux = length ivar) by lia.
  unfold valid_mask, broadcast2 in Hm. rewrite Hl, Nat.eqb_refl in Hm. injection Hm as <-.
  injection Hf as <-. injection Hi as <-.
  erewrite (proj1 (masked_pairs _ flux ivar Hl)), (proj2 (masked_pairs _ flux ivar Hl)).
  set (ps := List.filter _ (zip flux ivar)).
  assert (Hps : forall p, In p ps -> fisfinite (fst p) = true /\ pos_fin (snd p)).
  { intros [x y] Hp. apply filter_In in Hp as [_ Hg]. simpl in Hg.
    apply andb_prop in Hg as [Hg Hy]. apply andb_prop in Hg as [Hx Hy'].
    split; [done|]. destruct y as [q| |]; try discriminate. exists q. split; [done|].
    by apply qltb_spec. }
  split; [|split; [|by rewrite !length_map]].
  - apply List.Forall_forall. intros x Hx. apply in_map_iff in Hx as [p [<- Hp]]. by apply Hps.
  - apply List.Forall_forall. intros x Hx. apply in_map_iff in Hx as [p [<- Hp]]. by apply Hps.
Qed.

(** After masking with [valid_mask] ([isfinite(flux) & isfinite(ivar) &
    (ivar > 0)]), every kept flux is finite, every kept inverse variance
    is finite and strictly positive, and the two arrays have the same
    length. *)
Theorem valid_mask_keeps_valid (flux ivar : list fl) (m : list bool) (flux' ivar' : list fl) :
  valid_mask flux ivar = Some m ->
  apply_mask m flux = Some flux' -> apply_mask m ivar = Some ivar' ->
  Forall (fun x => fisfinite x = true) flux' /\ Forall pos_fin ivar' /\
  length flux' = length ivar'.
Proof. apply masked_flux_ivar_valid. Qed.

Lemma valid_mask_keeps_valid_witness :
  exists m flux' ivar',
    valid_mask [Fin 1; NaN; Fin 3] [Fin 2; Fin 5; Fin 0] = Some m /\
    apply_mask m [Fin 1; NaN; Fin 3] = Some flux' /\
    apply_mask m [Fin 2; Fin 5; Fin 0] = Some ivar' /\
    Forall (fun x => fisfinite x = true) flux' /\ Forall pos_fin ivar' /\
    length flux' = length ivar'.
Proof.
  do 3 eexists. split; [reflexivity|]. split; [reflexivity|]. split; [reflexivity|].
  apply (valid_mask_keeps_valid [Fin 1; NaN; Fin 3] [Fin 2; Fin 5; Fin 0] [true; false; false]);
    reflexivity.
Defined.

Lemma Q_of_nat_pos (f : nat) : 0 < f -> (0 < Q_of_nat f)%Q.
Proof. intros Hf. unfold Q_of_nat, Qlt. simpl. lia. Qed.

(** ** When [rebin_spectrum] raises *)

Lemma block_means_some_iff {X : Type} (zero : X) add div of_nat (n f : nat) (xs : list X) :
  is_Some (block_means zero add div of_nat n f xs) <-> n * f <= length xs.
Proof.
  unfold block_means, reshape. rewrite length_firstn.
  destruct (Nat.eqb (Nat.min (n * f) (length xs)) (n * f)) eqn:E.
  - apply Nat.eqb_eq in E. split; [lia | by eexists].
  - apply Nat.eqb_neq in E. split; [by intros [? ?] | lia].
Qed.

Lemma block_means_firstn {X : Type} (zero : X) add div of_nat (n f : nat) (xs : list X) :
  block_means zero add div of_nat n f (firstn (n * f) xs) = block_means zero add div of_nat n f xs.
Proof. unfold block_means. by rewrite List.firstn_firstn, Nat.min_id. Qed.

Lemma block_means_len {X : Type} (zero : X) add div of_nat (n f : nat) (xs ys : list X) :
  block_means zero add div of_nat n f xs = Some ys -> length ys = n.
Proof.
  unfold block_means, reshape. destruct (Nat.eqb _ _); [|discriminate].
  intros H. injection H as <-. by rewrite length_map, length_chunks.
Qed.

(** For [factor >= 2], [rebin_spectrum] works on [n = len(wl) // factor]
    blocks of each array: it raises ([reshape] of a too short slice)
    exactly when [flux] or [ivar] has fewer than [n * factor] samples; its
    result is the same as on the first [n * factor] samples of each array
    (every later sample is ignored); and each of the three output arrays
    has [n] entries. *)
Theorem rebin_spectrum_fails_iff {A : Type} (zero one : A) (add div : A -> A -> A)
    (of_nat : nat -> A) (wl flux ivar : list A) (factor : Z) :
  (1 < factor)%Z ->
  let n := length wl / Z.to_nat factor in
  let k := n * Z.to_nat factor in
  (is_Some (rebin_spectrum zero one add div of_nat wl flux ivar factor) <->
   k <= length flux /\ k <= length ivar) /\
  rebin_spectrum zero one add div of_nat wl flux ivar factor
    = rebin_spectrum zero one add div of_nat (firstn k wl) (firstn k flux) (firstn k ivar) factor /\
  (forall wl_r flux_r ivar_r,
     rebin_spectrum zero one add div of_nat wl flux ivar factor = Some (wl_r, flux_r, ivar_r) ->
     length wl_r = n /\ length flux_r = n /\ length ivar_r = n).
Proof.
  intros Hf n k. unfold rebin_spectrum.
  replace (factor <=? 1)%Z with false by (symmetry; apply Z.leb_gt; lia).
  assert (Hf0 : Z.to_nat factor <> 0) by lia.
  set (f := Z.to_nat factor) in *.
  assert (Hw : n * f <= length wl).
  { subst n. rewrite Nat.mul_comm. apply Nat.Div0.mul_div_le. }
  assert (Hn : length (firstn k wl) / f = n).
  { subst k. rewrite length_firstn, Nat.min_l by done. by apply Nat.div_mul. }
  fold n. rewrite Hn. subst k.
  rewrite !block_means_firstn, <- List.firstn_map, block_means_firstn.
  split; [|split; [reflexivity|]].
  - destruct (proj2 (block_means_some_iff zero add div of_nat n f wl) Hw) as [wl_r ->].
    destruct (block_means zero add div of_nat n f (map (div one) ivar)) as [var_r|] eqn:Hv;
      destruct (block_means zero add div of_nat n f flux) as [flux_r|] eqn:Hfl.
    + split; [|by eexists]. intros _.
      assert (H1 : is_Some (block_means zero add div of_nat n f flux)) by (rewrite Hfl; by eexists).
      assert (H2 : is_Some (block_means zero add div of_nat n f (map (div one) ivar))) by (rewrite Hv; by eexists).
      apply block_means_some_iff in H1, H2. rewrite length_map in H2. lia.
    + split; [by intros [? ?]|]. intros [H1 _].
      apply (block_means_some_iff zero add div of_nat) in H1. rewrite Hfl in H1. by destruct H1.
    + split; [by intros [? ?]|]. intros [_ H2].
      assert (H2' : n * f <= length (map (div one) ivar)) by (rewrite length_map; lia).
      apply (block_means_some_iff zero add div of_nat) in H2'. rewrite Hv in H2'. by destruct H2'.
    + split; [by intros [? ?]|]. intros [_ H2].
      assert (H2' : n * f <= length (map (div one) ivar)) by (rewrite length_map; lia).
      apply (block_means_some_iff zero add div of_nat) in H2'. rewrite Hv in H2'. by destruct H2'.
  - intros wl_r flux_r ivar_r.
    destruct (block_means zero add div of_nat n f wl) as [w|] eqn:Hw'; [|discriminate].
    destruct (block_means zero add div of_nat n f (map (div one) ivar)) as [v|] eqn:Hv; [|discriminate].
    destruct (block_means zero add div of_nat n f flux) as [fl'|] eqn:Hfl; [|discriminate].
    intros H. injection H as <- <- <-.
    rewrite length_map.
    split; [|split]; eapply block_means_len; eassumption.
Qed.

Lemma rebin_spectrum_fails_iff_witness :
  rebin_spectrum_Q [1; 2; 3; 4; 5]%Q [1; 2; 3]%Q [1; 1; 1; 1]%Q 2 = None /\
  is_Some (rebin_spectrum_Q [1; 2; 3; 4; 5]%Q [1; 2; 3; 4; 9; 9]%Q [1; 1; 1; 1]%Q 2) /\
  rebin_spectrum_Q [1; 2; 3; 4; 5]%Q [1; 2; 3; 4; 9; 9]%Q [1; 1; 1; 1]%Q 2
    = rebin_spectrum_Q [1; 2; 3; 4]%Q [1; 2; 3; 4]%Q [1; 1; 1; 1]%Q 2 /\
  (forall wl_r flux_r ivar_r,
     rebin_spectrum_Q [1; 2; 3; 4; 5]%Q [1; 2; 3; 4; 9; 9]%Q [1; 1; 1; 1]%Q 2
       = Some (wl_r, flux_r, ivar_r) ->
     length wl_r = 2 /\ length flux_r = 2 /\ length ivar_r = 2).
Proof.
  unfold rebin_spectrum_Q.
  destruct (rebin_spectrum_fails_iff 0%Q 1%Q Qplus Qdiv Q_of_nat
              [1; 2; 3; 4; 5]%Q [1; 2; 3; 4; 9; 9]%Q [1; 1; 1; 1]%Q 2 ltac:(lia))
    as (Hiff & Heq & Hlen).
  split; [|split; [|split]].
  - destruct (rebin_spectrum 0%Q 1%Q Qplus Qdiv Q_of_nat [1; 2; 3; 4; 5]%Q [1; 2; 3]%Q
                [1; 1; 1; 1]%Q 2) eqn:E; [|done].
    exfalso.
    assert (H : is_Some (rebin_spectrum 0%Q 1%Q Qplus Qdiv Q_of_nat [1; 2; 3; 4; 5]%Q [1; 2; 3]%Q
                           [1; 1; 1; 1]%Q 2)) by (rewrite E; by eexists).
    apply (rebin_spectrum_fails_iff 0%Q 1%Q Qplus Qdiv Q_of_nat) in H; [simpl in H; lia | lia].
  - apply Hiff. simpl. lia.
  - exact Heq.
  - exact Hlen.
Defined.

(** ** [np.min] and [np.max] on finite arrays; [report['wavelength_range']] *)

Lemma qltb_false (x y : Q) : qltb x y = false -> (y <= x)%Q.
Proof. intros H. apply Qnot_lt_le. intros Hlt. apply qltb_spec in Hlt. congruence. Qed.

Lemma fold_fmin2_fin (qs : list Q) (a : Q) :
  exists mn, fold_left fmin2 (map Fin qs) (Fin a) = Fin mn /\
    (mn = a \/ In mn qs) /\ (mn <= a)%Q /\ Forall (fun q => mn <= q)%Q qs.
Proof.
  revert a. induction qs as [|q qs IH]; intros a; simpl.
  - exists a. split; [done|]. split; [by left|]. split; [apply Qle_refl | constructor].
  - destruct (qltb q a) eqn:E.
    + apply qltb_spec in E. destruct (IH q) as (mn & Hf & Hin & Hle & Hall).
      exists mn. split; [done|]. split; [destruct Hin as [-> | Hin]; right; [by left | by right]|].
      split; [lra|]. by constructor.
    + apply qltb_false in E. destruct (IH a) as (mn & Hf & Hin & Hle & Hall).
      exists mn. split; [done|]. split; [destruct Hin as [-> | Hin]; [by left | right; by right]|].
      split; [done|]. constructor; [lra | done].
Qed.

Lemma fold_fmax2_fin (qs : list Q) (a : Q) :
  exists mx, fold_left fmax2 (map Fin qs) (Fin a) = Fin mx /\
    (mx = a \/ In mx qs) /\ (a <= mx)%Q /\ Forall (fun q => q <= mx)%Q qs.
Proof.
  revert a. induction qs as [|q qs IH]; intros a; simpl.
  - exists a. split; [done|]. split; [by left|]. split; [apply Qle_refl | constructor].
  - destruct (qltb a q) eqn:E.
    + apply qltb_spec in E. destruct (IH q) as (mx & Hf & Hin & Hle & Hall).
      exists mx. split; [done|]. split; [destruct Hin as [-> | Hin]; right; [by left | by right]|].
      split; [lra|]. by constructor.
    + apply qltb_false in E. destruct (IH a) as (mx & Hf & Hin & Hle & Hall).
      exists mx. split; [done|]. split; [destruct Hin as [-> | Hin]; [by left | right; by right]|].
      split; [done|]. constructor; [lra | done].
Qed.

Lemma np_min_max_fin (qs : list Q) :
  qs <> [] ->
  exists mn mx, np_min (map Fin qs) = Some (Fin mn) /\ np_max (map Fin qs) = Some (Fin mx) /\
    In mn qs /\ In mx qs /\ Forall (fun q => mn <= q <= mx)%Q qs.
Proof.
  destruct qs as [|q qs]; [done|]. intros _. simpl.
  destruct (fold_fmin2_fin qs q) as (mn & -> & Hmn & Hmq & Hmall).
  destruct (fold_fmax2_fin qs q) as (mx & -> & Hmx & Hxq & Hxall).
  exists mn, mx. split; [done|]. split; [done|].
  split; [destruct Hmn as [-> | H]; [by left | by right]|].
  split; [destruct Hmx as [-> | H]; [by left | by right]|].
  constructor; [lra|].
  rewrite List.Forall_forall in Hmall, Hxall |- *. intros x Hx. split; [by apply Hmall | by apply Hxall].
Qed.

(** [report['wavelength_range']]: [np.min] raises on an empty array; on
    a non-empty finite one, [min] and [max] are samples of the array that
    bound every sample, and [delta = max - min] (so [delta >= 0]). *)
Theorem wavelength_range_bounds (qs : list Q) :
  wavelength_range [] = None /\
  (qs <> [] ->
   exists mn mx, wavelength_range (map Fin qs) = Some (Fin mn, Fin mx, Fin (mx - mn)) /\
     In mn qs /\ In mx qs /\ Forall (fun q => mn <= q <= mx)%Q qs /\ (0 <= mx - mn)%Q).
Proof.
  split; [reflexivity|]. intros Hne.
  destruct (np_min_max_fin qs Hne) as (mn & mx & Hmn & Hmx & Hin1 & Hin2 & Hall).
  exists mn, mx. unfold wavelength_range. rewrite Hmn, Hmx.
  split; [reflexivity|]. split; [done|]. split; [done|]. split; [done|].
  rewrite List.Forall_forall in Hall. destruct (Hall mn Hin1). lra.
Qed.

Lemma wavelength_range_bounds_witness :
  exists mn mx, wavelength_range (map Fin [4000; 3990; 4010]%Q) = Some (Fin mn, Fin mx, Fin (mx - mn)) /\
    In mn [4000; 3990; 4010]%Q /\ In mx [4000; 3990; 4010]%Q /\
    Forall (fun q => mn <= q <= mx)%Q [4000; 3990; 4010]%Q /\ (0 <= mx - mn)%Q.
Proof. apply (proj2 (wavelength_range_bounds [4000; 3990; 4010]%Q)). discriminate. Defined.

(** ** The redshift block of the report *)

(** For a non-empty list, [robust_redshift_calculation] returns a value,
    an error and a count between 1 and the length of the list. *)
Lemma robust_redshift_some (sqrt : Q -> Q) (redshifts : list Q) (sigma_clip : Q) :
  redshifts <> [] ->
  exists v e n, robust_redshift_calculation sqrt redshifts sigma_clip = (Some v, Some e, n) /\
    1 <= n <= length redshifts.
Proof.
  intros Hne. unfold robust_redshift_calculation.
  destruct redshifts as [|r rs] eqn:Er; [done|]. rewrite <- Er in Hne |- *.
  destruct (sigma_clip_filter _ _ _ _) as [|k ks] eqn:Hk.
  - do 3 eexists. split; [reflexivity|]. rewrite Er. simpl. lia.
  - do 3 eexists. split; [reflexivity|].
    rewrite <- Hk. split; [by rewrite Hk; simpl; lia|].
    unfold sigma_clip_filter. apply filter_length_le.
Qed.

(** The redshift block of [generate_spectral_report]: the key is absent
    exactly when no line yielded a redshift; otherwise it is always built
    (the [float(...)] conversions never see [None]), with
    [1 <= n_lines_used <= n_lines_total = len(redshifts)], and the radial
    velocity is the redshift times [299792.458] km/s (its error
    likewise). *)
Theorem report_redshift_shape (sqrt : Q -> Q) (redshifts : list Q) (sigma_clip : Q) :
  (report_redshift sqrt redshifts sigma_clip = Some None <-> redshifts = []) /\
  (redshifts <> [] ->
   exists info, report_redshift sqrt redshifts sigma_clip = Some (Some info) /\
     1 <= n_lines_used info <= n_lines_total info /\
     n_lines_total info = length redshifts /\
     rv_value info = (z_value info * speed_of_light_kms)%Q /\
     rv_error info = (z_error info * speed_of_light_kms)%Q).
Proof.
  destruct redshifts as [|r rs] eqn:Er.
  - split; [done|]. intros H; done.
  - assert (Hne : redshifts <> []) by (rewrite Er; discriminate).
    destruct (robust_redshift_some sqrt redshifts sigma_clip Hne) as (v & e & n & Hr & Hn).
    unfold report_redshift. rewrite <- Er, Er. rewrite <- Er, Hr.
    split; [split; [discriminate | intros H; rewrite Er in H; discriminate]|].
    intros _. eexists. split; [reflexivity|]. simpl. split; [lia|]. done.
Qed.

Lemma report_redshift_shape_witness :
  exists info, report_redshift (fun x => x) [1 # 1000; 12 # 10000; 9 # 10000; 5 # 100]%Q 2
                 = Some (Some info) /\
     1 <= n_lines_used info <= n_lines_total info /\
     n_lines_total info = length [1 # 1000; 12 # 10000; 9 # 10000; 5 # 100]%Q /\
     rv_value info = (z_value info * speed_of_light_kms)%Q /\
     rv_error info = (z_error info * speed_of_light_kms)%Q.
Proof.
  apply (report_redshift_shape (fun x => x) [1 # 1000; 12 # 10000; 9 # 10000; 5 # 100]%Q 2).
  discriminate.
Defined.

(** ** Which lines the report keeps *)

Lemma filter_nil_iff_existsb (P : Q -> bool) (xs : list Q) :
  List.filter P xs = [] <-> existsb P xs = false.
Proof.
  induction xs as [|x xs IH]; simpl; [done|].
  destruct (P x); simpl; [split; discriminate | exact IH].
Qed.

Lemma existsb_in_window (c window : Q) (xs : list Q) :
  existsb (in_window c window) xs = true <->
  Exists (fun w => c - window <= w <= c + window)%Q xs.
Proof.
  rewrite existsb_exists, List.Exists_exists. unfold in_window.
  split; intros (w & Hw & H); exists w; split; try done.
  - apply andb_prop in H as [H1 H2]. apply Qle_bool_iff in H1, H2. done.
  - destruct H as [H1 H2]. apply andb_true_intro. split; by apply Qle_bool_iff.
Qed.

(** On arrays of equal length [measure_line_parameters] never raises, and
    it returns [None] exactly when no wavelength falls in the window. *)
Lemma measure_line_parameters_equal_len (simpson : list Q -> list Q -> Q)
    (wavelengths flux : list Q) (line_center window : Q) :
  length flux = length wavelengths ->
  exists r, measure_line_parameters simpson wavelengths flux line_center window = Some r /\
    (r = None <-> existsb (in_window line_center window) wavelengths = false).
Proof.
  intros Heq. unfold measure_line_parameters.
  change (map _ wavelengths) with (map (in_window line_center window) wavelengths).
  rewrite apply_mask_self_filter.
  destruct (apply_mask_some (map (in_window line_center window) wavelengths) flux)
    as [fw Hfw]; [by rewrite length_map|].
  rewrite Hfw.
  assert (Hcnt := apply_mask_count _ _ _ Hfw).
  assert (Hz : length fw = 0 <-> existsb (in_window line_center window) wavelengths = false).
  { rewrite Hcnt, <- filter_nil_iff_existsb. clear.
    induction wavelengths as [|w ws IH]; simpl; [done|].
    destruct (in_window line_center window w); simpl; [split; discriminate | exact IH]. }
  destruct (Nat.eqb (length fw) 0) eqn:E; eexists; (split; [reflexivity|]).
  - apply Nat.eqb_eq in E. tauto.
  - apply Nat.eqb_neq in E. split; [discriminate | tauto].
Qed.

Section LoopKeys.
Variable simpson : list Q -> list Q -> Q.
Variables (wavelengths flux : list Q).
Hypothesis Hlen : length flux = length wavelengths.

Lemma absorption_step_keys (st : report_state) (line : string * Q) :
  exists st', absorption_line_step simpson wavelengths flux st line = Some st' /\
    (forall name, is_Some (absorption_lines st' !! name) <->
       is_Some (absorption_lines st !! name) \/ (name = fst line /\ has_sample wavelengths line = true)) /\
    length (redshifts st') = length (redshifts st) + (if has_sample wavelengths line then 1 else 0) /\
    size (absorption_lines st') =
      (if has_sample wavelengths line then
         (match absorption_lines st !! fst line with Some _ => id | None => S end)
           (size (absorption_lines st))
       else size (absorption_lines st)).
Proof.
  destruct line as [name rest]. unfold absorption_line_step, has_sample. simpl.
  destruct (measure_line_parameters_equal_len simpson wavelengths flux rest 10 Hlen)
    as ([m|] & -> & Hiff).
  - assert (Hs : existsb (in_window rest 10) wavelengths = true)
      by (destruct (existsb _ _); [done | discriminate (proj2 Hiff eq_refl)]).
    rewrite lookup_insert_eq, Hs. eexists. split; [reflexivity|]. simpl.
    split; [|split; [rewrite length_app; simpl; lia | apply map_size_insert]].
    intros name'. rewrite lookup_insert_is_Some'.
    split; [intros [-> | H]; [right; done | by left] | intros [H | [-> _]]; [by right | by left]].
  - assert (Hs : existsb (in_window rest 10) wavelengths = false) by (by apply Hiff).
    rewrite Hs. eexists. split; [reflexivity|].
    split; [|split; [lia | done]].
    intros name'. split; [by left | intros [H | [_ H]]; [done | discriminate]].
Qed.

Lemma absorption_loop_keys_from (lines : list (string * Q)) (st0 : report_state) :
  exists st, fold_left (fun st line => match st with
                            | Some st => absorption_line_step simpson wavelengths flux st line
                            | None => None
                            end) lines (Some st0) = Some st /\
    (forall name, is_Some (absorption_lines st !! name) <->
       is_Some (absorption_lines st0 !! name) \/
       exists rest, In (name, rest) lines /\ has_sample wavelengths (name, rest) = true) /\
    length (redshifts st) = length (redshifts st0) + length (List.filter (has_sample wavelengths) lines) /\
    (List.NoDup (map fst lines) ->
     (forall line, In line lines -> absorption_lines st0 !! fst line = None) ->
     size (absorption_lines st) = size (absorption_lines st0) + length (List.filter (has_sample wavelengths) lines)).
Proof.
  revert st0. induction lines as [|[name rest] lines IH]; intros st0.
  - simpl. exists st0. split; [done|]. split; [|split; [lia | lia]].
    intros name. split; [by left | intros [H | (_ & [] & _)]; done].
  - destruct (absorption_step_keys st0 (name, rest)) as (st1 & Hst1 & Hk1 & Hr1 & Hs1).
    cbn [fold_left]. rewrite Hst1.
    destruct (IH st1) as (st & Hrun & Hk & Hr & Hs). exists st. split; [done|].
    split; [|split].
    + intros name'. rewrite Hk, Hk1. simpl. split.
      * intros [[H | [-> Hh]] | (r & Hin & Hh)];
          [by left | right; exists rest; split; [by left | done] |].
        right. exists r. split; [by right | done].
      * intros [H | (r & [E | Hin] & Hh)]; [by left; left | | by right; exists r].
        injection E as -> ->. left. by right.
    + rewrite Hr, Hr1. cbn [List.filter].
      destruct (has_sample wavelengths (name, rest)); simpl; lia.
    + intros Hnd Hfresh. apply List.NoDup_cons_iff in Hnd as [Hnot Hnd].
      rewrite Hs; [|done|].
      * rewrite Hs1. rewrite (Hfresh (name, rest)) by (by left). cbn [List.filter].
        destruct (has_sample wavelengths (name, rest)); simpl; lia.
      * intros [name' rest'] Hin. simpl.
        destruct (absorption_lines st1 !! name') eqn:E; [|done]. exfalso.
        assert (Hsome : is_Some (absorption_lines st1 !! name')) by (rewrite E; by eexists).
        apply Hk1 in Hsome as [Hsome | [Eq _]].
        -- assert (Hf := Hfresh (name', rest') ltac:(by right)). simpl in Hf.
           rewrite Hf in Hsome. by destruct Hsome.
        -- simpl in Eq. subst name'. apply Hnot. apply in_map_iff. by exists (name, rest').
Qed.
End LoopKeys.

Lemma view_is_Some (simpson : list Q -> list Q -> Q) (wavelengths flux : list Q)
    (lines_dict : list (string * Q)) (st : report_state) (name : string) :
  absorption_line_loop simpson wavelengths flux lines_dict = Some st ->
  is_Some (absorption_lines_view st !! name) <-> is_Some (absorption_lines st !! name).
Proof.
  intros Hrun.
  destruct (lines_inv_loop simpson wavelengths flux lines_dict lines_dict
              initial_report_state st) as [_ Habs];
    [done | apply lines_inv_initial | exact Hrun |].
  unfold absorption_lines_view. rewrite lookup_omap.
  destruct (absorption_lines st !! name) as [l|] eqn:Hl; simpl; [|done].
  destruct (Habs name l Hl) as [_ (rest & m & _ & -> & _)]. split; intros _; by eexists.
Qed.

Lemma view_size (simpson : list Q -> list Q -> Q) (wavelengths flux : list Q)
    (lines_dict : list (string * Q)) (st : report_state) :
  absorption_line_loop simpson wavelengths flux lines_dict = Some st ->
  size (absorption_lines_view st) = size (absorption_lines st).
Proof.
  intros Hrun. rewrite <- !size_dom.
  f_equal. apply set_eq. intros name. rewrite !elem_of_dom.
  by apply (view_is_Some simpson wavelengths flux lines_dict).
Qed.

(** The absorption-line loop of [generate_spectral_report], on arrays of
    equal length: it never raises; a line name is a key of
    [report['absorption_lines']] exactly when [lines_dict] has that name
    with a rest wavelength within 10 of some sample wavelength; one
    redshift is collected per such line, so with distinct names (a dict)
    [n_lines_total = len(redshifts)] equals the number of entries of
    [report['absorption_lines']]. *)
Theorem absorption_loop_keys (simpson : list Q -> list Q -> Q) (wavelengths flux : list Q)
    (lines_dict : list (string * Q)) :
  length flux = length wavelengths ->
  exists st, absorption_line_loop simpson wavelengths flux lines_dict = Some st /\
    (forall name, is_Some (absorption_lines_view st !! name) <->
       exists rest, In (name, rest) lines_dict /\
         Exists (fun w => rest - 10 <= w <= rest + 10)%Q wavelengths) /\
    length (redshifts st) =
      length (List.filter (fun line => existsb (in_window (snd line) 10) wavelengths) lines_dict) /\
    (List.NoDup (map fst lines_dict) -> size (absorption_lines_view st) = length (redshifts st)).
Proof.
  intros Hlen.
  destruct (absorption_loop_keys_from simpson wavelengths flux Hlen lines_dict initial_report_state)
    as (st & Hrun & Hk & Hr & Hs).
  exists st. split; [exact Hrun|]. split; [|split].
  - intros name. rewrite (view_is_Some simpson wavelengths flux lines_dict st name Hrun), Hk.
    simpl. rewrite lookup_empty. split.
    + intros [[? H] | (rest & Hin & Hh)]; [discriminate|]. exists rest. split; [done|].
      by apply existsb_in_window.
    + intros (rest & Hin & Hh). right. exists rest. split; [done|]. by apply existsb_in_window.
  - rewrite Hr. reflexivity.
  - intros Hnd. rewrite (view_size simpson wavelengths flux lines_dict st Hrun), Hs, Hr;
      [reflexivity | done | intros; apply lookup_empty].
Qed.

Lemma absorption_loop_keys_witness :
  exists st, absorption_line_loop (fun _ _ => 0%Q) lines_wl lines_flux SPECTRAL_LINES = Some st /\
    is_Some (absorption_lines_view st !! "Hβ") /\
    is_Some (absorption_lines_view st !! "Mg I 5172") /\
    absorption_lines_view st !! "Fe I 5328" = None /\
    length (redshifts st) = 2 /\ size (absorption_lines_view st) = 2.
Proof.
  destruct (absorption_loop_keys (fun _ _ => 0%Q) lines_wl lines_flux SPECTRAL_LINES
              ltac:(reflexivity)) as (st & Hrun & Hk & Hr & Hs).
  assert (Hr2 : length (redshifts st) = 2) by (rewrite Hr; vm_compute; reflexivity).
  exists st. split; [exact Hrun|]. split; [|split; [|split; [|split]]].
  - apply Hk. exists (48613 # 10)%Q. split; [by left|].
    apply List.Exists_exists. exists 4861%Q. split; [simpl; tauto | split; vm_compute; discriminate].
  - apply Hk. exists (51727 # 10)%Q. split; [right; by left|].
    apply List.Exists_exists. exists 5172%Q. split; [simpl; tauto | split; vm_compute; discriminate].
  - destruct (absorption_lines_view st !! "Fe I 5328") eqn:E; [|done]. exfalso.
    destruct (proj1 (Hk "Fe I 5328") ltac:(rewrite E; by eexists)) as (rest & Hin & Hex).
    destruct Hin as [E1 | [E1 | [E1 | []]]]; try discriminate.
    injection E1 as <-. apply List.Exists_exists in Hex as (w & Hw & Hb).
    unfold lines_wl in Hw. simpl in Hw.
    repeat destruct Hw as [<- | Hw]; try done; lra.
  - exact Hr2.
  - rewrite Hs; [exact Hr2|]. simpl.
    repeat constructor; simpl; intros H; repeat destruct H as [H | H]; try discriminate; done.
Defined.

(** [generate_spectral_report] with [lines_dict = SPECTRAL_LINES] on
    arrays of equal length sets [temperature_estimate] and
    [temperature_value] exactly when some wavelength lies in
    [[4851.3, 4871.3]] (the [Hβ] window), and then from the equivalent
    width of that line. *)
Theorem report_temperature_present (simpson : list Q -> list Q -> Q) (wavelengths flux : list Q) :
  length flux = length wavelengths ->
  exists st, absorption_line_loop simpson wavelengths flux SPECTRAL_LINES = Some st /\
    (is_Some (report_temperature (absorption_lines_view st)) <->
     Exists (fun w => 48513 # 10 <= w <= 48713 # 10)%Q wavelengths) /\
    (forall t, report_temperature (absorption_lines_view st) = Some t ->
     exists m, absorption_lines_view st !! "Hβ" = Some m /\
       t = estimate_temperature (Fin (equivalent_width m))).
Proof.
  intros Hlen.
  destruct (absorption_loop_keys_from simpson wavelengths flux Hlen SPECTRAL_LINES initial_report_state)
    as (st & Hrun & Hk & _ & _).
  exists st. split; [exact Hrun|]. split.
  - unfold report_temperature.
    assert (E : is_Some (report_temperature (absorption_lines_view st)) <->
                is_Some (absorption_lines_view st !! "Hβ")).
    { unfold report_temperature. destruct (absorption_lines_view st !! "Hβ");
        split; intros [? H]; try discriminate; by eexists. }
    unfold report_temperature in E. rewrite E.
    rewrite (view_is_Some simpson wavelengths flux SPECTRAL_LINES st _ Hrun), Hk.
    simpl. rewrite lookup_empty. split.
    + intros [[? H] | (rest & Hin & Hh)]; [discriminate|].
      destruct Hin as [E1 | [E1 | [E1 | []]]]; try discriminate.
      injection E1 as <-. apply existsb_in_window in Hh.
      eapply List.Exists_impl; [|exact Hh]. simpl. intros w Hw. lra.
    + intros Hh. right. exists (48613 # 10)%Q. split; [by left|].
      apply existsb_in_window.
      eapply List.Exists_impl; [|exact Hh]. simpl. intros w Hw. lra.
  - unfold report_temperature. intros t.
    destruct (absorption_lines_view st !! "Hβ") as [m|]; [|discriminate].
    intros Ht. injection Ht as <-. by exists m.
Qed.

Lemma report_temperature_present_witness :
  (exists st, absorption_line_loop (fun _ _ => 0%Q) lines_wl lines_flux SPECTRAL_LINES = Some st /\
     is_Some (report_temperature (absorption_lines_view st))) /\
  (exists st, absorption_line_loop (fun _ _ => 0%Q) dip_wl dip_flux SPECTRAL_LINES = Some st /\
     report_temperature (absorption_lines_view st) = None).
Proof.
  split.
  - destruct (report_temperature_present (fun _ _ => 0%Q) lines_wl lines_flux ltac:(reflexivity))
      as (st & Hrun & Hiff & _).
    exists st. split; [exact Hrun|]. apply Hiff.
    apply List.Exists_exists. exists 4861%Q. split; [simpl; tauto | split; vm_compute; discriminate].
  - destruct (report_temperature_present (fun _ _ => 0%Q) dip_wl dip_flux ltac:(reflexivity))
      as (st & Hrun & Hiff & _).
    exists st. split; [exact Hrun|].
    destruct (report_temperature (absorption_lines_view st)) eqn:E; [|done]. exfalso.
    pose proof (proj1 Hiff ltac:(by eexists)) as Hex.
    apply List.Exists_exists in Hex as (w & Hw & Hb).
    unfold dip_wl in Hw. simpl in Hw.
    repeat destruct Hw as [<- | Hw]; try done; lra.
Defined.

(** ** [main]'s window adjustment and [try_savgol] *)

Lemma lor_1_odd (x : Z) : Z.odd x = true -> Z.lor x 1 = x.
Proof.
  intros Ho. apply Z.bits_inj'. intros n Hn. rewrite Z.lor_spec.
  destruct (Z.eq_dec n 0%Z) as [-> | Hn0].
  - rewrite Z.bit0_odd, Ho. reflexivity.
  - rewrite (Z.bits_above_log2 1 n) by (simpl; lia). apply orb_false_r.
Qed.

Lemma lor_1_even (x : Z) : Z.even x = true -> Z.lor x 1 = (x + 1)%Z.
Proof.
  intros He.
  assert (Hl : Z.land x 1 = 0%Z).
  { change (Z.land x (Z.ones 1) = 0%Z). rewrite Z.land_ones by lia.
    apply Z.even_spec in He. destruct He as [k ->].
    change (2 ^ 1)%Z with 2%Z. rewrite Z.mul_comm, Z.mod_mul; lia. }
  rewrite <- Z.lxor_lor by exact Hl. symmetry. by apply Z.add_nocarry_lxor.
Qed.

Lemma lor_1_ge (x : Z) : (x <= Z.lor x 1)%Z.
Proof.
  destruct (Z.even x) eqn:E.
  - rewrite lor_1_even by done. lia.
  - rewrite lor_1_odd; [lia|]. by rewrite <- Z.negb_even, E.
Qed.

(** [main] (and [analyze_file]) shrink [SG_WINDOW] to the data before
    calling [try_savgol], which shrinks it again: the window handed to
    [savgol_filter] is the same as when [try_savgol] receives the
    configured [SG_WINDOW] unchanged, for every window, order and length. *)
Theorem main_sg_window_redundant (sg_window poly : Z) (len : nat) :
  savgol_window (main_sg_window sg_window len) poly len = savgol_window sg_window poly len.
Proof.
  unfold savgol_window, main_sg_window.
  destruct (Z.of_nat len <? sg_window)%Z eqn:E; [|reflexivity].
  apply Z.ltb_lt in E.
  assert (Hs : (Z.max 3 (Z.lor (shrink_window len) 1)) = shrink_window len).
  { rewrite lor_1_odd by apply shrink_window_odd.
    destruct (shrink_window_bounds len) as [H3 _]. lia. }
  rewrite Hs.
  assert (Hw : (Z.of_nat len <? Z.max 3 (Z.lor sg_window 1))%Z = true).
  { apply Z.ltb_lt. assert (H := lor_1_ge sg_window). lia. }
  rewrite Hw.
  by destruct (Z.of_nat len <? shrink_window len)%Z.
Qed.
